(** * Buffer pool manager of UniBase: model and verified properties

    Shallow embedding of [src/storage/buffer_pool_manager.cpp].

    The manager owns a fixed array of frames ([pages_]), a page table
    from page identities to frame indices ([page_table_]), a free list of
    frame indices ([free_list_]) and two collaborators it only calls
    through their interfaces: the disk manager and the replacer.  Each
    public member function runs under the pool latch, so it is modelled as
    one atomic state transformer.  Every call made to a collaborator is
    recorded, in order, in a ghost [trace_], which lets the statements talk
    about which I/O a call performs. *)

From Stdlib Require Import ZArith.
From Stdlib.Strings Require Import Byte.
From stdpp Require Import gmap list fin_maps.

Local Open Scope Z_scope.

(** ** Data model *)

(** A frame index into [pages_]. *)
Abbreviation frame_id_t := nat.

(** [PageId]: the pair of a file descriptor and a page number. *)
Record PageId := mkPageId { fd : Z; page_no : Z }.

Global Instance PageId_eq_dec : EqDecision PageId.
Proof. solve_decision. Defined.

Global Instance PageId_countable : Countable PageId.
Proof.
  apply (inj_countable' (λ p, (fd p, page_no p)) (λ q, mkPageId q.1 q.2)).
  by intros [].
Defined.

(** [Page]: the content hosted by one frame.  The class is declared in a
    header that is not part of the translated file; its four members are
    the ones the manager reads and writes.  [pin_count_] is a fixed-width
    counter in the source; here its value is an integer, and [++] and [--]
    are the integer successor and predecessor, which is what the machine
    counter computes as long as the value stays within
    [0 .. PIN_COUNT_MAX].  Every statement below that depends on the value
    of an incremented counter carries that bound as a hypothesis. *)
Record Page := mkPage {
  data_ : list byte;
  id_ : PageId;
  is_dirty_ : bool;
  pin_count_ : Z }.

(** The largest value the pin counter is relied on to hold: that of a
    32-bit signed integer, the narrowest declaration consistent with the
    code. *)
Definition PIN_COUNT_MAX : Z := 2147483647.

Definition get_page_id (p : Page) : PageId := id_ p.
Definition get_data (p : Page) : list byte := data_ p.
Definition is_dirty (p : Page) : bool := is_dirty_ p.

Definition set_data (d : list byte) (p : Page) : Page :=
  mkPage d (id_ p) (is_dirty_ p) (pin_count_ p).
Definition set_id (i : PageId) (p : Page) : Page :=
  mkPage (data_ p) i (is_dirty_ p) (pin_count_ p).
Definition set_dirty (b : bool) (p : Page) : Page :=
  mkPage (data_ p) (id_ p) b (pin_count_ p).
Definition set_pin_count (n : Z) (p : Page) : Page :=
  mkPage (data_ p) (id_ p) (is_dirty_ p) n.

(** Modelled from the spec: [Page::reset_memory] lives in the missing
    header; the spec describes it as resetting the frame's content to
    empty, so it zero-fills the [PAGE_SIZE] data bytes and touches no other
    member. *)
Definition reset_memory (PAGE_SIZE : nat) (p : Page) : Page :=
  set_data (repeat x00 PAGE_SIZE) p.

(** Modelled from the spec: a frame that was never assigned hosts no page:
    empty content, the invalid page number, clean and unpinned. *)
Definition blank_page (PAGE_SIZE : nat) (INVALID_PAGE_ID : Z) : Page :=
  mkPage (repeat x00 PAGE_SIZE) (mkPageId 0 INVALID_PAGE_ID) false 0.

Global Instance Page_inhabited : Inhabited Page :=
  populate (mkPage [] (mkPageId 0 0) false 0).

(** ** Collaborator interfaces *)

(** The persistent store.  [read_page] receives the destination buffer and
    returns it filled; [allocate_page] returns the new page number. *)
Class DiskManager (D : Type) := {
  read_page : D → Z → Z → list byte → nat → D * list byte;
  write_page : D → Z → Z → list byte → nat → D;
  allocate_page : D → Z → D * Z }.

(** The eviction policy.  [victim] returns [bool] and an out-parameter in
    the source; here it returns the optional frame. *)
Class Replacer (R : Type) := {
  victim : R → R * option frame_id_t;
  pin : R → frame_id_t → R;
  unpin : R → frame_id_t → R }.

(** Modelled from the spec: the contract of the eviction policy.  It keeps
    a set of eligible frames; [victim] removes and returns one of them and
    returns none exactly when the set is empty, [pin] removes a frame from
    the set and [unpin] adds it. *)
Class ReplacerSpec (R : Type) `{Replacer R} := {
  eligible : R → gset frame_id_t;
  victim_some : ∀ r r' f,
    victim r = (r', Some f) → f ∈ eligible r ∧ eligible r' = eligible r ∖ {[f]};
  victim_none : ∀ r r',
    victim r = (r', None) → eligible r = ∅ ∧ eligible r' = ∅;
  eligible_pin : ∀ r f, eligible (pin r f) = eligible r ∖ {[f]};
  eligible_unpin : ∀ r f, eligible (unpin r f) = eligible r ∪ {[f]} }.

(** Calls made to the collaborators, in the order they happen. *)
Inductive Event :=
| EvRead (file pno : Z)
| EvWrite (file pno : Z) (bytes : list byte)
| EvAlloc (file pno : Z)
| EvVictim (res : option frame_id_t)
| EvPin (f : frame_id_t)
| EvUnpin (f : frame_id_t).

Section BufferPool.

Context {D R : Type} `{DM : DiskManager D} `{RP : Replacer R}.
Variable PAGE_SIZE : nat.
Variable INVALID_PAGE_ID : Z.

(** The order in which a loop over [page_table_] meets its keys.  The
    table is a [std::unordered_map], whose iteration order is not
    specified, so the order is a parameter of the model. *)
Variable key_order : gmap PageId frame_id_t → list PageId.

(** ** The manager's state *)

Record BufferPoolManager := mkBPM {
  pages_ : list Page;
  page_table_ : gmap PageId frame_id_t;
  free_list_ : list frame_id_t;
  disk_manager_ : D;
  replacer_ : R;
  trace_ : list Event }.

Definition pool_size_ (s : BufferPoolManager) : nat := length (pages_ s).

(** A member function is a state transformer with a result. *)
Definition M (A : Type) : Type := BufferPoolManager → A * BufferPoolManager.

Definition ret {A} (a : A) : M A := λ s, (a, s).
Definition bind {A B} (m : M A) (k : A → M B) : M B :=
  λ s, let (a, s') := m s in k a s'.

Notation "'let*' x ':=' m 'in' k" := (bind m (λ x, k))
  (at level 10, x name, m at level 200, k at level 200, only parsing).
Notation "m >> k" := (bind m (λ _, k))
  (at level 100, k at level 200, right associativity, only parsing).

(** *** Frame pool accesses *)

(** [pages_[f]] read.  Indexing outside the pool is undefined in the
    source; every statement below is made for frames inside the pool. *)
Definition page_at (f : frame_id_t) : M Page :=
  λ s, (pages_ s !!! f, s).

(** In-place update of one member of [pages_[f]]. *)
Definition modify_page (f : frame_id_t) (g : Page → Page) : M unit :=
  λ s, (tt, mkBPM (alter g f (pages_ s)) (page_table_ s) (free_list_ s)
                  (disk_manager_ s) (replacer_ s) (trace_ s)).

(** *** Page table and free list accesses *)

Definition table_find (p : PageId) : M (option frame_id_t) :=
  λ s, (page_table_ s !! p, s).

Definition table_erase (p : PageId) : M unit :=
  λ s, (tt, mkBPM (pages_ s) (delete p (page_table_ s)) (free_list_ s)
                  (disk_manager_ s) (replacer_ s) (trace_ s)).

Definition table_set (p : PageId) (f : frame_id_t) : M unit :=
  λ s, (tt, mkBPM (pages_ s) (<[p := f]> (page_table_ s)) (free_list_ s)
                  (disk_manager_ s) (replacer_ s) (trace_ s)).

Definition get_free_list : M (list frame_id_t) :=
  λ s, (free_list_ s, s).

Definition set_free_list (l : list frame_id_t) : M unit :=
  λ s, (tt, mkBPM (pages_ s) (page_table_ s) l
                  (disk_manager_ s) (replacer_ s) (trace_ s)).

(** *** Calls to the collaborators *)

Definition dm_write (file pno : Z) (buf : list byte) (n : nat) : M unit :=
  λ s, (tt, mkBPM (pages_ s) (page_table_ s) (free_list_ s)
                  (write_page (disk_manager_ s) file pno buf n) (replacer_ s)
                  (trace_ s ++ [EvWrite file pno buf])).

(** [read_page] fills the data buffer of frame [f]. *)
Definition dm_read (file pno : Z) (f : frame_id_t) (n : nat) : M unit :=
  λ s, let (d', buf) :=
         read_page (disk_manager_ s) file pno (get_data (pages_ s !!! f)) n in
       (tt, mkBPM (alter (set_data buf) f (pages_ s)) (page_table_ s)
                  (free_list_ s) d' (replacer_ s)
                  (trace_ s ++ [EvRead file pno])).

Definition dm_alloc (file : Z) : M Z :=
  λ s, let (d', pno) := allocate_page (disk_manager_ s) file in
       (pno, mkBPM (pages_ s) (page_table_ s) (free_list_ s) d' (replacer_ s)
                   (trace_ s ++ [EvAlloc file pno])).

Definition rp_victim : M (option frame_id_t) :=
  λ s, let (r', v) := victim (replacer_ s) in
       (v, mkBPM (pages_ s) (page_table_ s) (free_list_ s) (disk_manager_ s) r'
                 (trace_ s ++ [EvVictim v])).

Definition rp_pin (f : frame_id_t) : M unit :=
  λ s, (tt, mkBPM (pages_ s) (page_table_ s) (free_list_ s) (disk_manager_ s)
                  (pin (replacer_ s) f) (trace_ s ++ [EvPin f])).

Definition rp_unpin (f : frame_id_t) : M unit :=
  λ s, (tt, mkBPM (pages_ s) (page_table_ s) (free_list_ s) (disk_manager_ s)
                  (unpin (replacer_ s) f) (trace_ s ++ [EvUnpin f])).

(** ** The member functions *)

(** [find_victim_page]: the free list first, the replacer otherwise; a
    frame chosen by the replacer loses its page table entry. *)
Definition find_victim_page : M (option frame_id_t) :=
  let* fl := get_free_list in
  match fl with
  | f :: rest => set_free_list rest >> ret (Some f)
  | [] =>
      let* v := rp_victim in
      match v with
      | Some f =>
          let* p := page_at f in
          table_erase (get_page_id p) >> ret (Some f)
      | None => ret None
      end
  end.

(** [update_page]: the [Page*] argument is the frame it points to. *)
Definition update_page (page : frame_id_t) (new_page_id : PageId)
    (new_frame_id : frame_id_t) : M unit :=
  let* p := page_at page in
  (if is_dirty p
   then dm_write (fd (get_page_id p)) (page_no (get_page_id p))
                 (get_data p) PAGE_SIZE >>
        modify_page page (set_dirty false)
   else ret tt) >>
  modify_page page (set_pin_count 0) >>
  let* p := page_at page in
  table_erase (get_page_id p) >>
  table_set new_page_id new_frame_id >>
  modify_page page (reset_memory PAGE_SIZE) >>
  modify_page page (set_id new_page_id).

(** [fetch_page]: the returned [Page*] is the frame index, [nullptr] is
    [None].  On a hit [pin_count_++] is the integer successor (see
    [Page]). *)
Definition fetch_page (page_id : PageId) : M (option frame_id_t) :=
  let* it := table_find page_id in
  match it with
  | Some frame_id =>
      rp_pin frame_id >>
      modify_page frame_id (λ p, set_pin_count (pin_count_ p + 1) p) >>
      ret (Some frame_id)
  | None =>
      let* v := find_victim_page in
      match v with
      | None => ret None
      | Some frame_id =>
          let* p := page_at frame_id in
          (if is_dirty p then update_page frame_id page_id frame_id
           else ret tt) >>
          dm_read (fd page_id) (page_no page_id) frame_id PAGE_SIZE >>
          table_set page_id frame_id >>
          modify_page frame_id (set_id page_id) >>
          rp_pin frame_id >>
          modify_page frame_id (set_pin_count 1) >>
          ret (Some frame_id)
      end
  end.

Definition unpin_page (page_id : PageId) (dirty : bool) : M bool :=
  let* it := table_find page_id in
  match it with
  | None => ret false
  | Some frame_id =>
      let* p := page_at frame_id in
      if decide (pin_count_ p = 0) then ret false
      else
        modify_page frame_id (λ p, set_pin_count (pin_count_ p - 1) p) >>
        let* p := page_at frame_id in
        (if decide (pin_count_ p = 0) then rp_unpin frame_id else ret tt) >>
        (if dirty then modify_page frame_id (set_dirty true) else ret tt) >>
        ret true
  end.

Definition flush_page (page_id : PageId) : M bool :=
  let* it := table_find page_id in
  match it with
  | None => ret false
  | Some frame_id =>
      if decide (page_no page_id = INVALID_PAGE_ID) then ret false
      else
        let* p := page_at frame_id in
        dm_write (fd page_id) (page_no page_id) (get_data p) PAGE_SIZE >>
        modify_page frame_id (set_dirty false) >>
        ret true
  end.

(** [new_page]: [page_id] is an in/out parameter; the result carries its
    final value next to the returned frame. *)
Definition new_page (page_id : PageId) : M (PageId * option frame_id_t) :=
  let* v := find_victim_page in
  match v with
  | None => ret (page_id, None)
  | Some frame_id =>
      let* pno := dm_alloc (fd page_id) in
      let page_id := mkPageId (fd page_id) pno in
      let* p := page_at frame_id in
      (if is_dirty p
       then dm_write (fd (get_page_id p)) (page_no (get_page_id p))
                     (get_data p) PAGE_SIZE >>
            modify_page frame_id (set_dirty false)
       else ret tt) >>
      rp_pin frame_id >>
      modify_page frame_id (set_pin_count 1) >>
      modify_page frame_id (set_id page_id) >>
      table_set page_id frame_id >>
      ret (page_id, Some frame_id)
  end.

(** [delete_page]: the assignment to the by-value parameter [page_id] has
    no effect outside the call and is dropped. *)
Definition delete_page (page_id : PageId) : M bool :=
  let* it := table_find page_id in
  match it with
  | None => ret true
  | Some frame_id =>
      let* p := page_at frame_id in
      if decide (pin_count_ p ≠ 0) then ret false
      else
        (if is_dirty_ p
         then dm_write (fd (get_page_id p)) (page_no (get_page_id p))
                       (get_data p) PAGE_SIZE
         else ret tt) >>
        table_erase page_id >>
        modify_page frame_id (reset_memory PAGE_SIZE) >>
        rp_unpin frame_id >>
        let* fl := get_free_list in
        set_free_list (fl ++ [frame_id]) >>
        ret true
  end.

(** The loop of [flush_all_pages] over a list of keys. *)
Fixpoint flush_each (keys : list PageId) : M unit :=
  match keys with
  | [] => ret tt
  | k :: rest => flush_page k >> flush_each rest
  end.

(** [flush_all_pages]: the loop visits the entries of the page table, which
    [flush_page] never changes, in the order [key_order] gives; the
    argument [fd] is not used. *)
Definition flush_all_pages (file : Z) : M unit :=
  λ s, flush_each (key_order (page_table_ s)) s.

(** ** Sequences of calls *)

Inductive Op :=
| OpFetch (page_id : PageId)
| OpUnpin (page_id : PageId) (dirty : bool)
| OpFlush (page_id : PageId)
| OpNew (page_id : PageId)
| OpDelete (page_id : PageId)
| OpFlushAll (file : Z).

Definition run_op (o : Op) (s : BufferPoolManager) : BufferPoolManager :=
  match o with
  | OpFetch p => (fetch_page p s).2
  | OpUnpin p d => (unpin_page p d s).2
  | OpFlush p => (flush_page p s).2
  | OpNew p => (new_page p s).2
  | OpDelete p => (delete_page p s).2
  | OpFlushAll file => (flush_all_pages file s).2
  end.

Definition run_ops (os : list Op) (s : BufferPoolManager) : BufferPoolManager :=
  foldl (λ st o, run_op o st) s os.

(** Modelled from the spec: the constructor is in the missing header.  The
    frame pool is created once at its fixed capacity, no page is resident
    and every frame is on the free list. *)
Definition init_bpm (n : nat) (d : D) (r : R) : BufferPoolManager :=
  mkBPM (replicate n (blank_page PAGE_SIZE INVALID_PAGE_ID)) ∅ (seq 0 n) d r [].

(** ** State predicates *)

(** No two page identities are hosted by the same frame. *)
Definition page_table_injective (s : BufferPoolManager) : Prop :=
  ∀ p1 p2 f,
    page_table_ s !! p1 = Some f → page_table_ s !! p2 = Some f → p1 = p2.

(** The events a call appended to the trace. *)
Definition new_events (s s' : BufferPoolManager) (evs : list Event) : Prop :=
  trace_ s' = trace_ s ++ evs.

(** The [write_page] call [flush_page pid] makes in state [s], if any. *)
Definition flush_write (s : BufferPoolManager) (pid : PageId) : list Event :=
  match page_table_ s !! pid with
  | Some f =>
      if decide (page_no pid = INVALID_PAGE_ID) then []
      else [EvWrite (fd pid) (page_no pid) (data_ (pages_ s !!! f))]
  | None => []
  end.

(** [s'] differs from [s] at most in the store, the trace and dirty flags
    that went from true to false. *)
Definition only_cleaned (s s' : BufferPoolManager) : Prop :=
  page_table_ s' = page_table_ s ∧
  free_list_ s' = free_list_ s ∧
  replacer_ s' = replacer_ s ∧
  pool_size_ s' = pool_size_ s ∧
  ∀ f, data_ (pages_ s' !!! f) = data_ (pages_ s !!! f) ∧
       id_ (pages_ s' !!! f) = id_ (pages_ s !!! f) ∧
       pin_count_ (pages_ s' !!! f) = pin_count_ (pages_ s !!! f) ∧
       (is_dirty_ (pages_ s' !!! f) = true → is_dirty_ (pages_ s !!! f) = true).



Section Invariant.

Context `{RS : !ReplacerSpec R}.

(** The pool invariant: the page table agrees with the identities stored
    in the frames, free frames are distinct, unpinned and not in the table,
    frames the replacer may evict are unpinned, and no pin count is
    negative. *)
Record bpm_inv (s : BufferPoolManager) : Prop := mkInv {
  inv_table : ∀ p f, page_table_ s !! p = Some f →
    (f < pool_size_ s)%nat ∧ id_ (pages_ s !!! f) = p;
  inv_free_nodup : NoDup (free_list_ s);
  inv_free : ∀ f, f ∈ free_list_ s →
    (f < pool_size_ s)%nat ∧ pin_count_ (pages_ s !!! f) = 0 ∧
    ∀ p, page_table_ s !! p ≠ Some f;
  inv_eligible : ∀ f, f ∈ eligible (replacer_ s) →
    (f < pool_size_ s)%nat ∧ pin_count_ (pages_ s !!! f) = 0;
  inv_pin_nonneg : ∀ f, (f < pool_size_ s)%nat →
    0 ≤ pin_count_ (pages_ s !!! f) }.

End Invariant.

End BufferPool.

(** ** Reference collaborators

    Concrete collaborators on which the member functions can be run. *)

(** Modelled from the spec: a persistent store that keeps the bytes last
    written at each page and the next page number of each file;
    [allocate_page] hands out increasing page numbers.  The spec leaves
    the reading of a page that was never written open; this store then
    leaves the buffer as it is. *)
Record MemDisk := mkMemDisk {
  md_store : gmap PageId (list byte);
  md_next : gmap Z Z }.

Global Instance MemDisk_manager : DiskManager MemDisk := {|
  read_page d file pno buf n :=
    (d, match md_store d !! mkPageId file pno with
        | Some b => take n b ++ drop n buf
        | None => buf
        end);
  write_page d file pno buf n :=
    mkMemDisk (<[mkPageId file pno := take n buf]> (md_store d)) (md_next d);
  allocate_page d file :=
    let k := default 0 (md_next d !! file) in
    (mkMemDisk (md_store d) (<[file := k + 1]> (md_next d)), k) |}.

Definition empty_disk : MemDisk := mkMemDisk ∅ ∅.

(** Modelled from the spec: an eviction policy that keeps the eligible
    frames in the order they were unpinned and evicts the oldest. *)
Definition drop_frame (f : frame_id_t) (r : list frame_id_t) : list frame_id_t :=
  filter (λ g, g ≠ f) r.

Global Instance Lru_replacer : Replacer (list frame_id_t) := {|
  victim r :=
    match r with
    | [] => ([], None)
    | f :: r' => (drop_frame f r', Some f)
    end;
  pin r f := drop_frame f r;
  unpin r f := if decide (f ∈ r) then r else r ++ [f] |}.

(** The concrete pool used in the examples: two-byte pages, [-1] as the
    invalid page number. *)
Definition pool (n : nat) : @BufferPoolManager MemDisk (list frame_id_t) :=
  init_bpm 2 (-1) n empty_disk [].

(** One iteration order, used when the model is run: that of the keys in
    the finite map. *)
Definition table_keys (m : gmap PageId frame_id_t) : list PageId :=
  (map_to_list m).*1.

Definition run (os : list Op) (n : nat) : @BufferPoolManager MemDisk (list frame_id_t) :=
  run_ops 2 (-1) table_keys os (pool n).

(** A pool of one frame whose only page, [(1,0)], was created by [new_page]
    and is still pinned. *)
Definition one_pinned : @BufferPoolManager MemDisk (list frame_id_t) :=
  run [OpNew (mkPageId 1 0)] 1.

(** A pool of one frame hosting page [(1,0)], unpinned and dirty, with the
    bytes [01 02] written by its last user: the state after [new_page],
    a write through the returned page and [unpin_page (1,0) true]. *)
Definition dirty_resident : @BufferPoolManager MemDisk (list frame_id_t) :=
  mkBPM [mkPage [x01; x02] (mkPageId 1 0) true 0]
        {[mkPageId 1 0 := 0%nat]} [] empty_disk [0%nat] [].

(** A pool of two frames hosting pages [(1,0)] and [(1,1)], both unpinned
    and so both eligible for eviction, the second one dirty. *)
Definition two_resident : @BufferPoolManager MemDisk (list frame_id_t) :=
  run [OpNew (mkPageId 1 0); OpUnpin (mkPageId 1 0) false;
       OpNew (mkPageId 1 0); OpUnpin (mkPageId 1 1) true] 2.

(** ** Effect of one call on a frame *)

(** What a call may do to a frame, given the events [evs] it appended: the
    bytes and the identity change only if the frame was unpinned, and a
    dirty flag goes from true to false only if the bytes the frame held
    were written at the identity it held. *)
Definition frame_effect (evs : list Event) (p p' : Page) : Prop :=
  (pin_count_ p = 0 ∨ (data_ p' = data_ p ∧ id_ p' = id_ p)) ∧
  (is_dirty_ p = true → is_dirty_ p' = false →
   EvWrite (fd (id_ p)) (page_no (id_ p)) (data_ p) ∈ evs).

Definition op_effect {D R : Type} (s s' : @BufferPoolManager D R) : Prop :=
  ∃ evs, trace_ s' = trace_ s ++ evs ∧
         pool_size_ s' = pool_size_ s ∧
         ∀ f, (f < pool_size_ s)%nat →
              frame_effect evs (pages_ s !!! f) (pages_ s' !!! f).

(** A pool of two frames with page [(1,0)] pinned in frame 0 and frame 1
    still free. *)
Definition half_full : @BufferPoolManager MemDisk (list frame_id_t) :=
  run [OpNew (mkPageId 1 0)] 2.

(** ** Proof steps shared by the proofs below *)

(** Unfolding a member function down to the state it builds. *)
Ltac run_unfold :=
  unfold fetch_page, new_page, unpin_page, flush_page, delete_page,
    update_page, find_victim_page, bind, ret, table_find, table_erase,
    table_set, get_free_list, set_free_list, page_at, modify_page, dm_write,
    dm_read, dm_alloc, rp_victim, rp_pin, rp_unpin, is_dirty, get_page_id,
    get_data; simpl.

(** Normal form of the frame pool after a call: the updates of one frame
    are merged and reads of that frame are resolved. *)
Ltac pool_norm Hlt :=
  repeat first
    [ rewrite list_lookup_total_alter_eq by (rewrite ?length_alter; exact Hlt)
    | rewrite list_alter_alter_eq
    | rewrite insert_insert_eq
    | rewrite delete_delete_eq ];
  simpl.

(** * Proofs *)

Section Proofs.

Context {D R : Type} `{DM : DiskManager D} `{RP : Replacer R}.
Context `{RS : !ReplacerSpec R}.
Variable PAGE_SIZE : nat.
Variable INVALID_PAGE_ID : Z.
Variable key_order : gmap PageId frame_id_t → list PageId.

Local Abbreviation BPM := (@BufferPoolManager D R).

(** ** How the invariant reacts to the state changes the manager makes *)

(** Changing members of one frame that keep its identity. *)
Lemma inv_modify (s : BPM) f g (d' : D) (r' : R) tr :
  bpm_inv s →
  id_ (g (pages_ s !!! f)) = id_ (pages_ s !!! f) →
  0 ≤ pin_count_ (g (pages_ s !!! f)) →
  (f ∈ free_list_ s → pin_count_ (g (pages_ s !!! f)) = 0) →
  (∀ f', f' ∈ eligible r' →
     (f' ∈ eligible (replacer_ s) ∧ f' ≠ f) ∨
     (f' = f ∧ (f < pool_size_ s)%nat ∧ pin_count_ (g (pages_ s !!! f)) = 0)) →
  bpm_inv (mkBPM (alter g f (pages_ s)) (page_table_ s) (free_list_ s) d' r' tr).
Proof.
  intros [I1 I2 I3 I4 I5] Hid Hpin Hfree Hel.
  assert (Hlk : ∀ f', (f' < pool_size_ s)%nat →
            id_ (alter g f (pages_ s) !!! f') = id_ (pages_ s !!! f') ∧
            (f' ≠ f → pin_count_ (alter g f (pages_ s) !!! f')
                      = pin_count_ (pages_ s !!! f')) ∧
            (f' = f → pin_count_ (alter g f (pages_ s) !!! f')
                      = pin_count_ (g (pages_ s !!! f)))).
  { intros f' Hlt. destruct (decide (f = f')) as [->|Hne].
    - rewrite list_lookup_total_alter_eq by exact Hlt.
      split; [done|]. split; [intros Hc; done|done].
    - rewrite list_lookup_total_alter_ne by exact Hne.
      split; [done|]. split; [done|intros Hc; congruence]. }
  split; unfold pool_size_ in *; simpl; rewrite ?length_alter.
  - intros p f' Hp. destruct (I1 p f' Hp) as [Hlt Hidp]. split; [done|].
    destruct (Hlk f' Hlt) as [-> _]. done.
  - done.
  - intros f' Hin. destruct (I3 f' Hin) as (Hlt & Hp0 & Hnt).
    split; [done|]. split; [|done].
    destruct (Hlk f' Hlt) as (_ & Hne & Heq).
    destruct (decide (f' = f)) as [->|Hd]; [rewrite Heq; auto|rewrite Hne; auto].
  - intros f' Hin. destruct (Hel f' Hin) as [[Hin' Hne]|(-> & Hlt & Hz)].
    + destruct (I4 f' Hin') as [Hlt Hz]. split; [done|].
      destruct (Hlk f' Hlt) as (_ & -> & _); done.
    + split; [done|]. destruct (Hlk f Hlt) as (_ & _ & ->); done.
  - intros f' Hlt. destruct (Hlk f' Hlt) as (_ & Hne & Heq).
    destruct (decide (f' = f)) as [->|Hd]; [rewrite Heq; auto|rewrite Hne; auto].
Qed.

(** Only the replacer, the store or the trace change. *)
Lemma inv_same (s : BPM) (d' : D) (r' : R) tr :
  bpm_inv s →
  eligible r' ⊆ eligible (replacer_ s) →
  bpm_inv (mkBPM (pages_ s) (page_table_ s) (free_list_ s) d' r' tr).
Proof.
  intros [I1 I2 I3 I4 I5] Hel. split; simpl; auto.
Qed.

(** Installing a page identity in a frame that no entry of the remaining
    table and no remaining free-list element refers to. *)
Lemma inv_install (s : BPM) f g pid (table0 : gmap PageId frame_id_t) free0 (d' : D) (r' : R) tr :
  bpm_inv s →
  (f < pool_size_ s)%nat →
  table0 ⊆ page_table_ s →
  (∀ p, table0 !! p ≠ Some f) →
  NoDup free0 →
  (∀ x, x ∈ free0 → x ∈ free_list_ s) →
  f ∉ free0 →
  eligible r' ⊆ eligible (replacer_ s) ∖ {[f]} →
  id_ (g (pages_ s !!! f)) = pid →
  0 ≤ pin_count_ (g (pages_ s !!! f)) →
  bpm_inv (mkBPM (alter g f (pages_ s)) (<[pid := f]> table0) free0 d' r' tr).
Proof.
  intros [I1 I2 I3 I4 I5] Hlt Hsub Hrange Hnd Hfsub Hnf Hel Hid Hpin.
  assert (Hat : alter g f (pages_ s) !!! f = g (pages_ s !!! f))
    by (apply list_lookup_total_alter_eq; exact Hlt).
  assert (Hother : ∀ f', f' ≠ f → alter g f (pages_ s) !!! f' = pages_ s !!! f')
    by (intros; apply list_lookup_total_alter_ne; done).
  split; unfold pool_size_ in *; simpl; rewrite ?length_alter.
  - intros p f' Hp. destruct (decide (pid = p)) as [->|Hne].
    + rewrite lookup_insert_eq in Hp. inversion Hp; subst f'.
      rewrite Hat. done.
    + rewrite lookup_insert_ne in Hp by done.
      assert (f' ≠ f) by (intros ->; exact (Hrange p Hp)).
      rewrite Hother by done.
      apply I1. eapply lookup_weaken; eauto.
  - done.
  - intros f' Hin. destruct (I3 f' (Hfsub f' Hin)) as (Hlt' & Hp0 & Hnt).
    assert (f' ≠ f) by (intros ->; done).
    rewrite Hother by done. split; [done|]. split; [done|].
    intros p Hp. destruct (decide (pid = p)) as [->|Hne].
    + rewrite lookup_insert_eq in Hp. congruence.
    + rewrite lookup_insert_ne in Hp by done.
      apply (Hnt p). eapply lookup_weaken; eauto.
  - intros f' Hin. apply Hel in Hin.
    apply elem_of_difference in Hin as [Hin Hne].
    rewrite elem_of_singleton in Hne.
    rewrite Hother by done. apply I4; done.
  - intros f' Hlt'. destruct (decide (f' = f)) as [->|Hne].
    + rewrite Hat. done.
    + rewrite Hother by done. apply I5; done.
Qed.

(** Releasing the unpinned frame of a resident page to the free list. *)
Lemma inv_release (s : BPM) f g pid (d' : D) (r' : R) tr :
  bpm_inv s →
  page_table_ s !! pid = Some f →
  pin_count_ (pages_ s !!! f) = 0 →
  id_ (g (pages_ s !!! f)) = id_ (pages_ s !!! f) →
  pin_count_ (g (pages_ s !!! f)) = 0 →
  eligible r' ⊆ eligible (replacer_ s) ∪ {[f]} →
  bpm_inv (mkBPM (alter g f (pages_ s)) (delete pid (page_table_ s))
                 (free_list_ s ++ [f]) d' r' tr).
Proof.
  intros Hinv Hp Hz Hid Hpin Hel.
  destruct (inv_table _ Hinv _ _ Hp) as [Hlt Hidf].
  assert (Hnf : f ∉ free_list_ s).
  { intros Hin. destruct (inv_free _ Hinv _ Hin) as (_ & _ & Hnt). exact (Hnt _ Hp). }
  assert (Hm : bpm_inv (mkBPM (alter g f (pages_ s)) (page_table_ s)
                               (free_list_ s) d' r' tr)).
  { apply inv_modify; [done|done|lia|intros; done|].
    intros f' Hin. apply Hel in Hin. apply elem_of_union in Hin as [Hin|Hin].
    - destruct (decide (f' = f)) as [->|Hne]; [right|left]; done.
    - apply elem_of_singleton in Hin as ->. right. done. }
  destruct Hm as [I1 I2 I3 I4 I5].
  - simpl in *. split; simpl; unfold pool_size_ in *; simpl in *.
    + intros p f' Hp'. apply lookup_delete_Some in Hp' as [Hne Hp'].
      apply I1; done.
    + apply NoDup_app. split; [done|]. split; [|apply NoDup_singleton].
      intros x Hx Hx'. apply list_elem_of_singleton in Hx' as ->. done.
    + intros f' Hin. apply elem_of_app in Hin as [Hin|Hin].
      * destruct (I3 f' Hin) as (? & ? & Hnt). split; [done|]. split; [done|].
        intros p Hp'. apply lookup_delete_Some in Hp' as [_ Hp']. exact (Hnt p Hp').
      * apply list_elem_of_singleton in Hin as ->.
        split; [rewrite length_alter in *; done|]. split.
        { rewrite list_lookup_total_alter_eq by done. done. }
        intros p Hp'. apply lookup_delete_Some in Hp' as [Hne Hp'].
        destruct (inv_table _ Hinv _ _ Hp') as [_ Hidp]. congruence.
    + done.
    + done.
Qed.

(** ** Every member function preserves the invariant *)

(** Facts about the frame [find_victim_page] hands out. *)
Lemma free_frame_facts (s : BPM) f rest :
  bpm_inv s → free_list_ s = f :: rest →
  (f < pool_size_ s)%nat ∧ pin_count_ (pages_ s !!! f) = 0 ∧
  (∀ p, page_table_ s !! p ≠ Some f) ∧
  NoDup rest ∧ (f ∉ rest) ∧ (∀ x, x ∈ rest → x ∈ free_list_ s).
Proof.
  intros Hinv Hfl.
  pose proof (inv_free_nodup _ Hinv) as Hnd. rewrite Hfl in Hnd.
  apply NoDup_cons in Hnd as [Hnin Hnd].
  destruct (inv_free _ Hinv f) as (Hlt & Hz & Hnt).
  { rewrite Hfl. apply list_elem_of_here. }
  repeat split; try done.
  intros x Hx. rewrite Hfl. apply list_elem_of_further. done.
Qed.

Lemma victim_frame_facts (s : BPM) r' f :
  bpm_inv s → victim (replacer_ s) = (r', Some f) →
  (f < pool_size_ s)%nat ∧ pin_count_ (pages_ s !!! f) = 0 ∧
  (∀ p, delete (id_ (pages_ s !!! f)) (page_table_ s) !! p ≠ Some f) ∧
  eligible r' = eligible (replacer_ s) ∖ {[f]}.
Proof.
  intros Hinv Hv. destruct (victim_some _ _ _ Hv) as [Hin Hel].
  destruct (inv_eligible _ Hinv _ Hin) as [Hlt Hz].
  repeat split; try done.
  intros p Hp. apply lookup_delete_Some in Hp as [Hne Hp].
  destruct (inv_table _ Hinv _ _ Hp) as [_ Hid]. done.
Qed.

Lemma delete_range_weaken (m : gmap PageId frame_id_t) k (f : frame_id_t) :
  (∀ p, m !! p ≠ Some f) → ∀ p, delete k m !! p ≠ Some f.
Proof.
  intros Hm p Hp. apply lookup_delete_Some in Hp as [_ Hp]. exact (Hm p Hp).
Qed.

Lemma fetch_page_inv (s : BPM) pid :
  bpm_inv s → bpm_inv (fetch_page PAGE_SIZE pid s).2.
Proof.
  intros Hinv. run_unfold.
  destruct (page_table_ s !! pid) as [f|] eqn:Hp; simpl.
  - destruct (inv_table _ Hinv _ _ Hp) as [Hlt Hid].
    pose proof (inv_pin_nonneg _ Hinv f Hlt).
    apply inv_modify; simpl; try done; try lia.
    + intros Hin. destruct (inv_free _ Hinv _ Hin) as (_ & _ & Hnt).
      destruct (Hnt _ Hp).
    + intros f'. rewrite eligible_pin. set_solver.
  - destruct (free_list_ s) as [|f rest] eqn:Hfl; simpl.
    + destruct (victim (replacer_ s)) as [r' [f|]] eqn:Hv; simpl.
      * destruct (victim_frame_facts s r' f Hinv Hv) as (Hlt & Hz & Hnt & Hel).
        unfold pool_size_ in Hlt.
        destruct (is_dirty_ (pages_ s !!! f)) eqn:Hd; simpl; rewrite ?Hd; simpl;
          destruct (read_page _ _ _ _ _) as [d' buf]; simpl; pool_norm Hlt.
        all: apply inv_install; simpl; try done;
          [ apply delete_subseteq
          | apply inv_free_nodup; done
          | rewrite Hfl; apply not_elem_of_nil
          | rewrite eligible_pin, Hel; set_solver ].
      * apply inv_same; [done|]. simpl.
        destruct (victim_none _ _ Hv) as [-> ->]. done.
    + destruct (free_frame_facts s f rest Hinv Hfl)
        as (Hlt & Hz & Hnt & Hnd & Hnin & Hsub).
      unfold pool_size_ in Hlt.
      destruct (is_dirty_ (pages_ s !!! f)) eqn:Hd; simpl; rewrite ?Hd; simpl;
        destruct (read_page _ _ _ _ _) as [d' buf]; simpl; pool_norm Hlt.
      * apply inv_install; simpl; try done.
        -- apply delete_subseteq.
        -- apply delete_range_weaken; done.
        -- rewrite eligible_pin. set_solver.
      * apply inv_install; simpl; try done.
        rewrite eligible_pin. set_solver.
Qed.

Lemma resident_not_free (s : BPM) pid f :
  bpm_inv s → page_table_ s !! pid = Some f → f ∉ free_list_ s.
Proof.
  intros Hinv Hp Hin. destruct (inv_free _ Hinv _ Hin) as (_ & _ & Hnt).
  exact (Hnt _ Hp).
Qed.

Lemma unpin_page_inv (s : BPM) pid dirty :
  bpm_inv s → bpm_inv (unpin_page pid dirty s).2.
Proof.
  intros Hinv. run_unfold.
  destruct (page_table_ s !! pid) as [f|] eqn:Hp; simpl; [|done].
  destruct (inv_table _ Hinv _ _ Hp) as [Hlt Hid].
  pose proof (inv_pin_nonneg _ Hinv f Hlt) as Hnn.
  pose proof (resident_not_free s pid f Hinv Hp) as Hnf.
  unfold pool_size_ in Hlt.
  destruct (decide (pin_count_ (pages_ s !!! f) = 0)) as [Hz|Hnz]; simpl; [done|].
  pool_norm Hlt.
  destruct (decide (pin_count_ (pages_ s !!! f) - 1 = 0)) as [Hz1|Hnz1]; simpl;
    destruct dirty; simpl; pool_norm Hlt;
    apply inv_modify; simpl; try done; try lia.
  1,2: intros f' Hin; rewrite eligible_unpin in Hin;
    destruct (decide (f' = f)) as [->|Hne]; [right; done|left];
    apply elem_of_union in Hin as [Hin|Hin]; [done|];
    apply elem_of_singleton in Hin; done.
  - intros f' Hin. left. split; [done|]. intros ->.
    destruct (inv_eligible _ Hinv _ Hin) as [_ Hz]. done.
  - intros f' Hin. left. split; [done|]. intros ->.
    destruct (inv_eligible _ Hinv _ Hin) as [_ Hz]. done.
Qed.

Lemma flush_page_inv (s : BPM) pid :
  bpm_inv s → bpm_inv (flush_page PAGE_SIZE INVALID_PAGE_ID pid s).2.
Proof.
  intros Hinv. run_unfold.
  destruct (page_table_ s !! pid) as [f|] eqn:Hp; simpl; [|done].
  destruct (inv_table _ Hinv _ _ Hp) as [Hlt Hid].
  destruct (decide (page_no pid = INVALID_PAGE_ID)); simpl; [done|].
  apply inv_modify; simpl; try done.
  - apply inv_pin_nonneg; done.
  - intros Hin. destruct (resident_not_free s pid f Hinv Hp Hin).
  - intros f' Hin. destruct (decide (f' = f)) as [->|Hne]; [right|left; done].
    destruct (inv_eligible _ Hinv _ Hin) as [_ Hz]. done.
Qed.

Lemma new_page_inv (s : BPM) pid :
  bpm_inv s → bpm_inv (new_page PAGE_SIZE pid s).2.
Proof.
  intros Hinv. run_unfold.
  destruct (free_list_ s) as [|f rest] eqn:Hfl; simpl.
  - destruct (victim (replacer_ s)) as [r' [f|]] eqn:Hv; simpl.
    + destruct (victim_frame_facts s r' f Hinv Hv) as (Hlt & Hz & Hnt & Hel).
      unfold pool_size_ in Hlt.
      destruct (allocate_page _ _) as [d' pno]; simpl.
      destruct (is_dirty_ (pages_ s !!! f)) eqn:Hd; simpl; pool_norm Hlt.
      all: apply inv_install; simpl; try done;
        [ apply delete_subseteq
        | apply inv_free_nodup; done
        | rewrite Hfl; apply not_elem_of_nil
        | rewrite eligible_pin, Hel; set_solver ].
    + apply inv_same; [done|]. simpl.
      destruct (victim_none _ _ Hv) as [-> ->]. done.
  - destruct (free_frame_facts s f rest Hinv Hfl)
      as (Hlt & Hz & Hnt & Hnd & Hnin & Hsub).
    unfold pool_size_ in Hlt.
    destruct (allocate_page _ _) as [d' pno]; simpl.
    destruct (is_dirty_ (pages_ s !!! f)) eqn:Hd; simpl; pool_norm Hlt.
    all: apply inv_install; simpl; try done;
      rewrite eligible_pin; set_solver.
Qed.

Lemma delete_page_inv (s : BPM) pid :
  bpm_inv s → bpm_inv (delete_page PAGE_SIZE pid s).2.
Proof.
  intros Hinv. run_unfold.
  destruct (page_table_ s !! pid) as [f|] eqn:Hp; simpl; [|done].
  destruct (decide (pin_count_ (pages_ s !!! f) ≠ 0)) as [Hnz|Hz]; simpl; [done|].
  assert (Hz' : pin_count_ (pages_ s !!! f) = 0) by lia.
  destruct (is_dirty_ (pages_ s !!! f)) eqn:Hd; simpl.
  all: apply inv_release; simpl; try done;
    rewrite eligible_unpin; set_solver.
Qed.

Lemma flush_each_cons (k : PageId) rest (s : BPM) :
  flush_each PAGE_SIZE INVALID_PAGE_ID (k :: rest) s =
  flush_each PAGE_SIZE INVALID_PAGE_ID rest
    (flush_page PAGE_SIZE INVALID_PAGE_ID k s).2.
Proof.
  simpl. unfold bind at 1.
  destruct (flush_page PAGE_SIZE INVALID_PAGE_ID k s); done.
Qed.

Lemma flush_each_inv keys (s : BPM) :
  bpm_inv s → bpm_inv (flush_each PAGE_SIZE INVALID_PAGE_ID keys s).2.
Proof.
  revert s. induction keys as [|k rest IH]; intros s Hinv; [done|].
  rewrite flush_each_cons. apply IH, flush_page_inv, Hinv.
Qed.

Lemma run_op_inv (o : Op) (s : BPM) :
  bpm_inv s → bpm_inv (run_op PAGE_SIZE INVALID_PAGE_ID key_order o s).
Proof.
  intros Hinv. destruct o; simpl.
  - by apply fetch_page_inv.
  - by apply unpin_page_inv.
  - by apply flush_page_inv.
  - by apply new_page_inv.
  - by apply delete_page_inv.
  - by apply flush_each_inv.
Qed.

Lemma run_ops_inv (os : list Op) (s : BPM) :
  bpm_inv s → bpm_inv (run_ops PAGE_SIZE INVALID_PAGE_ID key_order os s).
Proof.
  revert s. induction os as [|o os IH]; intros s Hinv; [done|].
  simpl. apply IH, run_op_inv, Hinv.
Qed.

(** The freshly constructed pool satisfies the invariant. *)
Lemma init_bpm_inv (n : nat) (d : D) (r : R) :
  eligible r = ∅ → bpm_inv (init_bpm PAGE_SIZE INVALID_PAGE_ID n d r).
Proof.
  intros Hel. unfold init_bpm.
  split; unfold pool_size_; simpl; rewrite ?length_replicate.
  - intros p f Hp. rewrite lookup_empty in Hp. done.
  - apply NoDup_seq.
  - intros f Hin. apply elem_of_seq in Hin.
    split; [lia|]. split.
    + rewrite lookup_total_replicate_2 by lia. done.
    + intros p Hp. rewrite lookup_empty in Hp. done.
  - intros f Hin. rewrite Hel in Hin. set_solver.
  - intros f Hlt. rewrite lookup_total_replicate_2 by lia. done.
Qed.

(** The invariant makes the page table injective. *)
Lemma inv_injective (s : BPM) : bpm_inv s → page_table_injective s.
Proof.
  intros Hinv p1 p2 f H1 H2.
  destruct (inv_table _ Hinv _ _ H1) as [_ <-].
  destruct (inv_table _ Hinv _ _ H2) as [_ <-]. done.
Qed.

(** ** fetch_page on a resident page *)

Lemma fetch_page_hit (s : BPM) pid f :
  page_table_ s !! pid = Some f →
  fetch_page PAGE_SIZE pid s =
  (Some f,
   mkBPM (alter (λ p, set_pin_count (pin_count_ p + 1) p) f (pages_ s))
         (page_table_ s) (free_list_ s) (disk_manager_ s)
         (pin (replacer_ s) f) (trace_ s ++ [EvPin f])).
Proof. intros Hp. run_unfold. rewrite Hp. done. Qed.

(** C3.  When [pid] is in the page table, hosted by frame [f] whose pin
    counter is below its maximum, [fetch_page pid] returns that frame; the
    only collaborator call it makes is [pin f] on the replacer, so the
    store is neither read nor changed; the pin count of [f] grows by
    exactly one and nothing else in the pool changes. *)
Theorem C3_fetch_resident_pins_without_io (s : BPM) pid f :
  page_table_ s !! pid = Some f →
  (f < pool_size_ s)%nat →
  pin_count_ (pages_ s !!! f) < PIN_COUNT_MAX →
  let r := fetch_page PAGE_SIZE pid s in
  r.1 = Some f ∧
  new_events s r.2 [EvPin f] ∧
  disk_manager_ r.2 = disk_manager_ s ∧
  replacer_ r.2 = pin (replacer_ s) f ∧
  pin_count_ (pages_ r.2 !!! f) = pin_count_ (pages_ s !!! f) + 1 ∧
  data_ (pages_ r.2 !!! f) = data_ (pages_ s !!! f) ∧
  id_ (pages_ r.2 !!! f) = id_ (pages_ s !!! f) ∧
  is_dirty_ (pages_ r.2 !!! f) = is_dirty_ (pages_ s !!! f) ∧
  (∀ f', f' ≠ f → pages_ r.2 !!! f' = pages_ s !!! f') ∧
  page_table_ r.2 = page_table_ s ∧
  free_list_ r.2 = free_list_ s.
Proof.
  intros Hp Hlt _. unfold pool_size_ in Hlt. rewrite (fetch_page_hit s pid f Hp).
  unfold new_events. simpl.
  rewrite list_lookup_total_alter_eq by exact Hlt. simpl.
  repeat split; try done.
  intros f' Hne. rewrite list_lookup_total_alter_ne by done. done.
Qed.

(** ** unpin_page *)

Lemma unpin_page_absent (s : BPM) pid dirty :
  page_table_ s !! pid = None → unpin_page pid dirty s = (false, s).
Proof. intros Hp. run_unfold. rewrite Hp. done. Qed.

Lemma unpin_page_zero (s : BPM) pid dirty f :
  page_table_ s !! pid = Some f → pin_count_ (pages_ s !!! f) = 0 →
  unpin_page pid dirty s = (false, s).
Proof.
  intros Hp Hz. run_unfold. rewrite Hp. simpl.
  destruct (decide (pin_count_ (pages_ s !!! f) = 0)); done.
Qed.

(** The state after a successful [unpin_page]. *)
Lemma unpin_page_pinned (s : BPM) pid dirty f :
  page_table_ s !! pid = Some f →
  (f < pool_size_ s)%nat →
  pin_count_ (pages_ s !!! f) ≠ 0 →
  let last := bool_decide (pin_count_ (pages_ s !!! f) = 1) in
  unpin_page pid dirty s =
  (true,
   mkBPM (alter (λ p, mkPage (data_ p) (id_ p) (dirty || is_dirty_ p)
                             (pin_count_ p - 1)) f (pages_ s))
         (page_table_ s) (free_list_ s) (disk_manager_ s)
         (if last then unpin (replacer_ s) f else replacer_ s)
         (trace_ s ++ if last then [EvUnpin f] else [])).
Proof.
  intros Hp Hlt Hnz. unfold pool_size_ in Hlt. run_unfold. rewrite Hp. simpl.
  destruct (decide (pin_count_ (pages_ s !!! f) = 0)) as [|_]; [done|]. simpl.
  pool_norm Hlt.
  destruct (decide (pin_count_ (pages_ s !!! f) - 1 = 0)) as [Hz1|Hnz1]; simpl.
  - rewrite bool_decide_eq_true_2 by lia.
    destruct dirty; simpl; pool_norm Hlt; f_equal; f_equal;
      apply list_alter_ext; done.
  - rewrite bool_decide_eq_false_2 by lia. rewrite app_nil_r.
    destruct dirty; simpl; pool_norm Hlt; f_equal; f_equal;
      apply list_alter_ext; done.
Qed.

(** C5.  After a successful [unpin_page pid dirty] the dirty flag of the
    hosting frame is [dirty || old flag]: set by [true], left alone by
    [false].  No call of [unpin_page], successful or not, turns the dirty
    flag of any frame from true to false. *)
Theorem C5_unpin_dirty_monotonic (s : BPM) pid dirty :
  (∀ f, page_table_ s !! pid = Some f →
        (f < pool_size_ s)%nat →
        0 < pin_count_ (pages_ s !!! f) →
        is_dirty_ (pages_ (unpin_page pid dirty s).2 !!! f)
        = dirty || is_dirty_ (pages_ s !!! f)) ∧
  (∀ f', is_dirty_ (pages_ s !!! f') = true →
         is_dirty_ (pages_ (unpin_page pid dirty s).2 !!! f') = true).
Proof.
  split.
  - intros f Hp Hlt Hpos.
    rewrite (unpin_page_pinned s pid dirty f Hp Hlt) by lia. simpl.
    unfold pool_size_ in Hlt.
    rewrite list_lookup_total_alter_eq by exact Hlt. done.
  - intros f' Hd.
    destruct (page_table_ s !! pid) as [f|] eqn:Hp;
      [|rewrite (unpin_page_absent s pid dirty Hp); done].
    destruct (decide (pin_count_ (pages_ s !!! f) = 0)) as [Hz|Hnz];
      [rewrite (unpin_page_zero s pid dirty f Hp Hz); done|].
    destruct (decide (f < pool_size_ s)%nat) as [Hlt|Hge].
    + rewrite (unpin_page_pinned s pid dirty f Hp Hlt Hnz). simpl.
      rewrite list_lookup_total_alter. case_decide as Hc; [|done].
      destruct Hc as [-> _]. simpl. rewrite Hd. by destruct dirty.
    + assert (Hpg : pages_ (unpin_page pid dirty s).2 = pages_ s).
      { unfold pool_size_ in Hge. run_unfold. rewrite Hp. simpl.
        destruct (decide (pin_count_ (pages_ s !!! f) = 0)); [done|]. simpl.
        assert (Hno : ∀ (g : Page → Page) (l : list Page),
                  length l = length (pages_ s) → alter g f l = l).
        { intros g l Hl. apply list_eq. intros i.
          rewrite list_lookup_alter. case_decide; [subst i|done].
          rewrite (lookup_ge_None_2 l f) by lia. done. }
        destruct (decide _); destruct dirty; simpl;
          rewrite ?Hno; rewrite ?Hno; done. }
      rewrite Hpg. done.
Qed.

(** ** flush_page *)

Lemma flush_page_refused (s : BPM) pid :
  page_table_ s !! pid = None ∨ page_no pid = INVALID_PAGE_ID →
  flush_page PAGE_SIZE INVALID_PAGE_ID pid s = (false, s).
Proof.
  intros Hc. run_unfold. destruct (page_table_ s !! pid); simpl; [|done].
  destruct (decide (page_no pid = INVALID_PAGE_ID)); [done|].
  destruct Hc; done.
Qed.

Lemma flush_page_written (s : BPM) pid f :
  page_table_ s !! pid = Some f →
  page_no pid ≠ INVALID_PAGE_ID →
  flush_page PAGE_SIZE INVALID_PAGE_ID pid s =
  (true,
   mkBPM (alter (set_dirty false) f (pages_ s)) (page_table_ s) (free_list_ s)
         (write_page (disk_manager_ s) (fd pid) (page_no pid)
                     (data_ (pages_ s !!! f)) PAGE_SIZE)
         (replacer_ s)
         (trace_ s ++ [EvWrite (fd pid) (page_no pid) (data_ (pages_ s !!! f))])).
Proof.
  intros Hp Hne. run_unfold. rewrite Hp. simpl.
  destruct (decide (page_no pid = INVALID_PAGE_ID)); done.
Qed.

(** C6.  [flush_page pid] returns [false] exactly when [pid] is not in the
    page table or its page number is [INVALID_PAGE_ID].  Otherwise,
    whatever the pin count and the dirty flag are, it makes one
    [write_page] call with the frame's current bytes, clears the dirty flag
    and returns [true]; flushing again right away writes the same bytes at
    the same place and leaves the page clean. *)
Theorem C6_flush_page (s : BPM) pid :
  (∀ f, page_table_ s !! pid = Some f → (f < pool_size_ s)%nat) →
  let r := flush_page PAGE_SIZE INVALID_PAGE_ID pid s in
  (r.1 = false ↔
     page_table_ s !! pid = None ∨ page_no pid = INVALID_PAGE_ID) ∧
  (r.1 = false → r.2 = s) ∧
  (∀ f, page_table_ s !! pid = Some f → page_no pid ≠ INVALID_PAGE_ID →
     let w := EvWrite (fd pid) (page_no pid) (data_ (pages_ s !!! f)) in
     let r2 := flush_page PAGE_SIZE INVALID_PAGE_ID pid r.2 in
     r.1 = true ∧
     new_events s r.2 [w] ∧
     disk_manager_ r.2 =
       write_page (disk_manager_ s) (fd pid) (page_no pid)
                  (data_ (pages_ s !!! f)) PAGE_SIZE ∧
     is_dirty_ (pages_ r.2 !!! f) = false ∧
     data_ (pages_ r.2 !!! f) = data_ (pages_ s !!! f) ∧
     pin_count_ (pages_ r.2 !!! f) = pin_count_ (pages_ s !!! f) ∧
     page_table_ r.2 = page_table_ s ∧
     r2.1 = true ∧
     new_events r.2 r2.2 [w] ∧
     is_dirty_ (pages_ r2.2 !!! f) = false).
Proof.
  intros Hrange r. subst r.
  destruct (page_table_ s !! pid) as [f|] eqn:Hp.
  - destruct (decide (page_no pid = INVALID_PAGE_ID)) as [Hinv|Hvalid].
    + rewrite flush_page_refused by (right; done). simpl.
      split; [split; [intros _; right; done|done]|]. split; [done|].
      intros f' _ Hc. done.
    + rewrite (flush_page_written s pid f Hp Hvalid). simpl.
      split; [split; [done|intros [Hc|Hc]; done]|]. split; [done|].
      intros f' Hf' _. inversion Hf'; subst f'.
      pose proof (Hrange f eq_refl) as Hlt. unfold pool_size_ in Hlt.
      rewrite (flush_page_written _ pid f) by done. unfold new_events. simpl.
      pool_norm Hlt. done.
  - rewrite flush_page_refused by (left; done). simpl.
    split; [split; [intros _; left; done|done]|]. split; [done|].
    intros f' Hc. done.
Qed.

(** ** delete_page *)

Lemma delete_page_absent (s : BPM) pid :
  page_table_ s !! pid = None → delete_page PAGE_SIZE pid s = (true, s).
Proof. intros Hp. run_unfold. rewrite Hp. done. Qed.

Lemma delete_page_pinned (s : BPM) pid f :
  page_table_ s !! pid = Some f → pin_count_ (pages_ s !!! f) ≠ 0 →
  delete_page PAGE_SIZE pid s = (false, s).
Proof.
  intros Hp Hnz. run_unfold. rewrite Hp. simpl.
  destruct (decide (pin_count_ (pages_ s !!! f) ≠ 0)); done.
Qed.

(** C7.  [delete_page pid] returns [true] and changes nothing when [pid] is
    not resident; returns [false] and changes nothing when the page is
    resident with a pin count other than zero; and for a resident,
    unpinned page it writes the content back when dirty, then erases the
    page table entry, resets the frame's bytes, calls [unpin] on the
    replacer, appends the frame to the free list and returns [true]. *)
Theorem C7_delete_page (s : BPM) pid :
  (page_table_ s !! pid = None →
     delete_page PAGE_SIZE pid s = (true, s)) ∧
  (∀ f, page_table_ s !! pid = Some f → pin_count_ (pages_ s !!! f) ≠ 0 →
     delete_page PAGE_SIZE pid s = (false, s)) ∧
  (∀ f, page_table_ s !! pid = Some f → (f < pool_size_ s)%nat →
     pin_count_ (pages_ s !!! f) = 0 →
     let p := pages_ s !!! f in
     let r := delete_page PAGE_SIZE pid s in
     r.1 = true ∧
     new_events s r.2
       ((if is_dirty_ p
         then [EvWrite (fd (id_ p)) (page_no (id_ p)) (data_ p)] else [])
        ++ [EvUnpin f]) ∧
     disk_manager_ r.2 =
       (if is_dirty_ p
        then write_page (disk_manager_ s) (fd (id_ p)) (page_no (id_ p))
                        (data_ p) PAGE_SIZE
        else disk_manager_ s) ∧
     page_table_ r.2 = delete pid (page_table_ s) ∧
     data_ (pages_ r.2 !!! f) = repeat x00 PAGE_SIZE ∧
     pin_count_ (pages_ r.2 !!! f) = 0 ∧
     (∀ f', f' ≠ f → pages_ r.2 !!! f' = pages_ s !!! f') ∧
     replacer_ r.2 = unpin (replacer_ s) f ∧
     free_list_ r.2 = free_list_ s ++ [f]).
Proof.
  split; [|split].
  - apply delete_page_absent.
  - apply delete_page_pinned.
  - intros f Hp Hlt Hz. unfold pool_size_ in Hlt. run_unfold. rewrite Hp. simpl.
    destruct (decide (pin_count_ (pages_ s !!! f) ≠ 0)); [done|]. simpl.
    unfold new_events.
    destruct (is_dirty_ (pages_ s !!! f)); simpl;
      rewrite list_lookup_total_alter_eq by exact Hlt; simpl;
      rewrite <- ?app_assoc; simpl;
      repeat split; try done;
      intros f' Hne; rewrite list_lookup_total_alter_ne by done; done.
Qed.

(** ** flush_all_pages *)

Lemma only_cleaned_refl (s : BPM) : only_cleaned s s.
Proof. repeat split; done. Qed.

Lemma only_cleaned_trans (s1 s2 s3 : BPM) :
  only_cleaned s1 s2 → only_cleaned s2 s3 → only_cleaned s1 s3.
Proof.
  intros (Ht & Hf & Hr & Hn & Hpg) (Ht' & Hf' & Hr' & Hn' & Hpg').
  repeat split; try congruence.
  all: destruct (Hpg f) as (? & ? & ? & ?); destruct (Hpg' f) as (? & ? & ? & ?);
    try congruence; auto.
Qed.

Lemma flush_page_only_cleaned (s : BPM) pid :
  only_cleaned s (flush_page PAGE_SIZE INVALID_PAGE_ID pid s).2.
Proof.
  destruct (page_table_ s !! pid) as [f|] eqn:Hp;
    [|rewrite flush_page_refused by (left; done); apply only_cleaned_refl].
  destruct (decide (page_no pid = INVALID_PAGE_ID)) as [Hs|Hv];
    [rewrite flush_page_refused by (right; done); apply only_cleaned_refl|].
  rewrite (flush_page_written s pid f Hp Hv).
  unfold only_cleaned, pool_size_. simpl. rewrite length_alter.
  repeat split; try done.
  all: rewrite list_lookup_total_alter; case_decide as Hc; try done.
  all: destruct Hc as [<- _]; done.
Qed.

Lemma flush_page_trace (s : BPM) pid :
  trace_ (flush_page PAGE_SIZE INVALID_PAGE_ID pid s).2 =
  trace_ s ++ flush_write INVALID_PAGE_ID s pid.
Proof.
  unfold flush_write.
  destruct (page_table_ s !! pid) as [f|] eqn:Hp;
    [|rewrite flush_page_refused by (left; done); simpl; by rewrite app_nil_r].
  destruct (decide (page_no pid = INVALID_PAGE_ID)) as [Hs|Hv];
    [rewrite flush_page_refused by (right; done); simpl; by rewrite app_nil_r|].
  rewrite (flush_page_written s pid f Hp Hv). done.
Qed.

Lemma flush_write_only_cleaned (s s' : BPM) pid :
  only_cleaned s s' →
  flush_write INVALID_PAGE_ID s' pid = flush_write INVALID_PAGE_ID s pid.
Proof.
  intros (Ht & _ & _ & _ & Hpg). unfold flush_write. rewrite Ht.
  destruct (page_table_ s !! pid) as [f|]; [|done].
  destruct (Hpg f) as (-> & _). done.
Qed.

(** What the loop of [flush_all_pages] does over any list of keys. *)
Lemma flush_each_spec keys (s : BPM) :
  (∀ pid f, pid ∈ keys → page_table_ s !! pid = Some f →
            (f < pool_size_ s)%nat) →
  let s' := (flush_each PAGE_SIZE INVALID_PAGE_ID keys s).2 in
  only_cleaned s s' ∧
  trace_ s' = trace_ s ++ flat_map (flush_write INVALID_PAGE_ID s) keys ∧
  (∀ pid f, pid ∈ keys → page_table_ s !! pid = Some f →
            page_no pid ≠ INVALID_PAGE_ID →
            is_dirty_ (pages_ s' !!! f) = false) ∧
  (∀ f, (∀ pid, pid ∈ keys → page_table_ s !! pid = Some f →
                page_no pid = INVALID_PAGE_ID) →
        pages_ s' !!! f = pages_ s !!! f).
Proof.
  revert s. induction keys as [|k rest IH]; intros s Hrange.
  - simpl. split; [apply only_cleaned_refl|]. rewrite app_nil_r.
    split; [done|]. split; [|done].
    intros pid f Hin. by apply not_elem_of_nil in Hin.
  - cbv zeta. rewrite flush_each_cons. simpl flat_map.
    set (s1 := (flush_page PAGE_SIZE INVALID_PAGE_ID k s).2).
    pose proof (flush_page_only_cleaned s k) as Hc1. fold s1 in Hc1.
    pose proof Hc1 as (Ht1 & Hf1 & Hr1 & Hn1 & Hpg1).
    destruct (IH s1) as (Hc & Htr & Hclean & Hkeep).
    { intros pid f Hin Hp. rewrite Hn1. rewrite Ht1 in Hp.
      apply (Hrange pid f); [by apply list_elem_of_further|done]. }
    split; [eapply only_cleaned_trans; eauto|].
    split.
    { rewrite Htr. unfold s1. rewrite flush_page_trace, <- app_assoc.
      f_equal. f_equal. apply flat_map_ext. intros pid.
      apply flush_write_only_cleaned. done. }
    split.
    + intros pid f Hin Hp Hv. apply elem_of_cons in Hin as [->|Hin].
      * destruct (is_dirty_ (pages_ _ !!! f)) eqn:Hd; [|done].
        destruct Hc as (_ & _ & _ & _ & Hpg).
        destruct (Hpg f) as (_ & _ & _ & Hmono). apply Hmono in Hd.
        unfold s1 in Hd. rewrite (flush_page_written s k f Hp Hv) in Hd.
        simpl in Hd.
        assert (Hlt : (f < length (pages_ s))%nat)
          by (apply (Hrange k f); [apply list_elem_of_here|done]).
        rewrite list_lookup_total_alter_eq in Hd by exact Hlt. done.
      * apply (Hclean pid f Hin); [by rewrite Ht1|done].
    + intros f Hskip. rewrite Hkeep.
      * unfold s1.
        destruct (page_table_ s !! k) as [g|] eqn:Hp;
          [|rewrite flush_page_refused by (left; done); done].
        destruct (decide (page_no k = INVALID_PAGE_ID)) as [Hs|Hv];
          [rewrite flush_page_refused by (right; done); done|].
        rewrite (flush_page_written s k g Hp Hv). simpl.
        apply list_lookup_total_alter_ne. intros ->.
        apply Hv, (Hskip k); [apply list_elem_of_here|done].
      * intros pid Hin Hp. rewrite Ht1 in Hp.
        apply Hskip; [by apply list_elem_of_further|done].
Qed.



(** ** Frame acquisition *)

Lemma find_victim_page_free (s : BPM) f rest :
  free_list_ s = f :: rest →
  find_victim_page s =
  (Some f, mkBPM (pages_ s) (page_table_ s) rest (disk_manager_ s)
                 (replacer_ s) (trace_ s)).
Proof. intros Hfl. run_unfold. rewrite Hfl. done. Qed.

Lemma find_victim_page_evict (s : BPM) r' f :
  free_list_ s = [] → victim (replacer_ s) = (r', Some f) →
  find_victim_page s =
  (Some f, mkBPM (pages_ s) (delete (id_ (pages_ s !!! f)) (page_table_ s))
                 (free_list_ s) (disk_manager_ s) r'
                 (trace_ s ++ [EvVictim (Some f)])).
Proof.
  intros Hfl Hv. unfold find_victim_page, bind, get_free_list. rewrite Hfl.
  unfold rp_victim. rewrite Hv. run_unfold. rewrite Hfl. done.
Qed.

Lemma find_victim_page_none (s : BPM) r' :
  free_list_ s = [] → victim (replacer_ s) = (r', None) →
  find_victim_page s =
  (None, mkBPM (pages_ s) (page_table_ s) (free_list_ s) (disk_manager_ s) r'
               (trace_ s ++ [EvVictim None])).
Proof.
  intros Hfl Hv. unfold find_victim_page, bind, get_free_list. rewrite Hfl.
  unfold rp_victim. rewrite Hv. run_unfold. rewrite Hfl. done.
Qed.

(** [find_victim_page] fails only with an empty free list and a replacer
    that offers no victim. *)
Lemma find_victim_page_fails (s : BPM) :
  (find_victim_page s).1 = None →
  free_list_ s = [] ∧ ∃ r', victim (replacer_ s) = (r', None).
Proof.
  destruct (free_list_ s) as [|f rest] eqn:Hfl.
  - destruct (victim (replacer_ s)) as [r' [f|]] eqn:Hv.
    + rewrite (find_victim_page_evict s r' f Hfl Hv). simpl. discriminate.
    + eauto.
  - rewrite (find_victim_page_free s f rest Hfl). simpl. discriminate.
Qed.

(** A frame handed out by [find_victim_page] is unpinned. *)
Lemma find_victim_page_unpinned (s s1 : BPM) f :
  bpm_inv s → find_victim_page s = (Some f, s1) →
  (f < pool_size_ s)%nat ∧ pin_count_ (pages_ s !!! f) = 0.
Proof.
  intros Hinv Hfv.
  destruct (free_list_ s) as [|g rest] eqn:Hfl.
  - destruct (victim (replacer_ s)) as [r' [g|]] eqn:Hv.
    + rewrite (find_victim_page_evict s r' g Hfl Hv) in Hfv.
      inversion Hfv; subst.
      destruct (victim_frame_facts s r' f Hinv Hv) as (? & ? & _). done.
    + rewrite (find_victim_page_none s r' Hfl Hv) in Hfv. done.
  - rewrite (find_victim_page_free s g rest Hfl) in Hfv.
    inversion Hfv; subst.
    destruct (free_frame_facts s f rest Hinv Hfl) as (? & ? & _). done.
Qed.

(** ** new_page *)

(** The state after [new_page] once a frame [f] was acquired, in terms of
    the state [s1] that [find_victim_page] left. *)
Lemma new_page_acquired (s s1 : BPM) pid f :
  find_victim_page s = (Some f, s1) →
  new_page PAGE_SIZE pid s =
  let a := allocate_page (disk_manager_ s1) (fd pid) in
  let p := pages_ s1 !!! f in
  let new_id := mkPageId (fd pid) a.2 in
  ((new_id, Some f),
   mkBPM (alter (set_id new_id) f
            (alter (set_pin_count 1) f
               (if is_dirty_ p then alter (set_dirty false) f (pages_ s1)
                else pages_ s1)))
         (<[new_id := f]> (page_table_ s1))
         (free_list_ s1)
         (if is_dirty_ p
          then write_page a.1 (fd (id_ p)) (page_no (id_ p)) (data_ p) PAGE_SIZE
          else a.1)
         (pin (replacer_ s1) f)
         (trace_ s1 ++ [EvAlloc (fd pid) a.2] ++
          (if is_dirty_ p
           then [EvWrite (fd (id_ p)) (page_no (id_ p)) (data_ p)] else []) ++
          [EvPin f])).
Proof.
  intros Hfv. unfold new_page, bind at 1. rewrite Hfv. run_unfold.
  destruct (allocate_page (disk_manager_ s1) (fd pid)) as [d' pno]. simpl.
  destruct (is_dirty_ (pages_ s1 !!! f)); simpl; rewrite <- ?app_assoc; done.
Qed.

(** C10.  When frame acquisition fails, [new_page] returns no frame and
    the caller's [page_id] as it was; the only collaborator call is the
    replacer's [victim], so [allocate_page] is not called and the store is
    unchanged.  When a frame is acquired, the [allocate_page] call is the
    first thing that follows the acquisition. *)
Theorem C10_new_page_allocates_after_frame (s : BPM) pid :
  ((find_victim_page s).1 = None →
     let r := new_page PAGE_SIZE pid s in
     r.1 = (pid, None) ∧
     new_events s r.2 [EvVictim None] ∧
     disk_manager_ r.2 = disk_manager_ s ∧
     pages_ r.2 = pages_ s ∧
     page_table_ r.2 = page_table_ s ∧
     free_list_ r.2 = free_list_ s) ∧
  (∀ f s1, find_victim_page s = (Some f, s1) →
     let a := allocate_page (disk_manager_ s1) (fd pid) in
     let r := new_page PAGE_SIZE pid s in
     r.1 = (mkPageId (fd pid) a.2, Some f) ∧
     ∃ rest, trace_ r.2 = trace_ s1 ++ EvAlloc (fd pid) a.2 :: rest).
Proof.
  split.
  - intros Hnone.
    destruct (find_victim_page_fails s Hnone) as (Hfl & r' & Hv).
    unfold new_page, bind.
    rewrite (find_victim_page_none s r' Hfl Hv). unfold ret, new_events. simpl.
    done.
  - intros f s1 Hfv. rewrite (new_page_acquired s s1 pid f Hfv). simpl.
    split; [done|]. eexists. reflexivity.
Qed.

(** ** Pool exhaustion *)









(** ** The page table is injective *)

(** C2.  Start from a state that satisfies the pool invariant (the
    constructed pool does, by [init_bpm_inv]).  After any sequence of
    public calls followed by any one of the six public member functions,
    no two page identities of the page table are mapped to the same frame;
    and the one frame an identity is mapped to (the table is a finite map)
    is a frame of the pool, stores that identity and is not on the free
    list. *)
Theorem C2_page_table_stays_injective (s : BPM) (os : list Op) (o : Op) :
  bpm_inv s →
  let s' := run_op PAGE_SIZE INVALID_PAGE_ID key_order o
              (run_ops PAGE_SIZE INVALID_PAGE_ID key_order os s) in
  page_table_injective s' ∧
  (∀ p f, page_table_ s' !! p = Some f →
          (f < pool_size_ s')%nat ∧ id_ (pages_ s' !!! f) = p ∧
          f ∉ free_list_ s').
Proof.
  intros Hinv s'.
  assert (Hinv' : bpm_inv s') by (apply run_op_inv, run_ops_inv, Hinv).
  split; [by apply inv_injective|].
  intros p f Hp. destruct (inv_table _ Hinv' _ _ Hp) as [Hlt Hid].
  split; [done|]. split; [done|]. by eapply resident_not_free.
Qed.

(** Every state reached from the constructed pool has an injective page
    table. *)
Lemma reachable_injective (n : nat) (d : D) (r : R) (os : list Op) :
  eligible r = ∅ →
  page_table_injective
    (run_ops PAGE_SIZE INVALID_PAGE_ID key_order os
       (init_bpm PAGE_SIZE INVALID_PAGE_ID n d r)).
Proof. intros Hel. apply inv_injective, run_ops_inv, init_bpm_inv, Hel. Qed.

(** ** fetch_page on a page that is not resident *)

(** The state after [fetch_page] once a frame [f] was acquired, in terms
    of the state [s1] that [find_victim_page] left: a dirty frame is
    written back once, at the identity it holds, before its bytes are reset
    and read over; the frame ends clean with pin count one. *)
Lemma fetch_page_acquired (s s1 : BPM) pid f :
  page_table_ s !! pid = None →
  find_victim_page s = (Some f, s1) →
  (f < pool_size_ s1)%nat →
  fetch_page PAGE_SIZE pid s =
  let p := pages_ s1 !!! f in
  let d1 := if is_dirty_ p
            then write_page (disk_manager_ s1) (fd (id_ p)) (page_no (id_ p))
                            (data_ p) PAGE_SIZE
            else disk_manager_ s1 in
  let buf := if is_dirty_ p then repeat x00 PAGE_SIZE else data_ p in
  let rd := read_page d1 (fd pid) (page_no pid) buf PAGE_SIZE in
  (Some f,
   mkBPM (alter (λ _, mkPage rd.2 pid false 1) f (pages_ s1))
         (<[pid := f]> (if is_dirty_ p then delete (id_ p) (page_table_ s1)
                        else page_table_ s1))
         (free_list_ s1) rd.1 (pin (replacer_ s1) f)
         (trace_ s1 ++
          (if is_dirty_ p
           then [EvWrite (fd (id_ p)) (page_no (id_ p)) (data_ p)] else []) ++
          [EvRead (fd pid) (page_no pid); EvPin f])).
Proof.
  intros Hp Hfv Hlt. unfold pool_size_ in Hlt.
  unfold fetch_page, bind at 1, table_find. rewrite Hp.
  unfold bind at 1. rewrite Hfv. run_unfold.
  destruct (is_dirty_ (pages_ s1 !!! f)) eqn:Hd; simpl; rewrite ?Hd; simpl;
    pool_norm Hlt;
    destruct (read_page _ _ _ _ _) as [d' buf] eqn:Hrd; simpl; pool_norm Hlt;
    rewrite <- ?app_assoc; simpl; f_equal; f_equal.
  all: apply list_alter_ext; [|done]; intros x Hx;
    apply list_lookup_total_correct in Hx; rewrite Hx in Hd;
    unfold set_pin_count, set_id, set_data; simpl; by rewrite ?Hd.
Qed.

(** ** Frames released by delete_page *)

(** [delete_page] of an unpinned dirty page puts the frame on the free list
    with its dirty flag and its old identity still in place. *)
Lemma delete_page_keeps_dirty (s : BPM) pid f :
  page_table_ s !! pid = Some f → (f < pool_size_ s)%nat →
  pin_count_ (pages_ s !!! f) = 0 →
  let s' := (delete_page PAGE_SIZE pid s).2 in
  free_list_ s' = free_list_ s ++ [f] ∧
  is_dirty_ (pages_ s' !!! f) = is_dirty_ (pages_ s !!! f) ∧
  id_ (pages_ s' !!! f) = id_ (pages_ s !!! f).
Proof.
  intros Hp Hlt Hz. unfold pool_size_ in Hlt. run_unfold. rewrite Hp. simpl.
  destruct (decide (pin_count_ (pages_ s !!! f) ≠ 0)); [done|]. simpl.
  destruct (is_dirty_ (pages_ s !!! f)) eqn:Hd; simpl;
    rewrite list_lookup_total_alter_eq by exact Hlt; simpl; done.
Qed.

(** The state after [delete_page] of a resident, unpinned page. *)
Lemma delete_page_released (s : BPM) pid f :
  page_table_ s !! pid = Some f →
  pin_count_ (pages_ s !!! f) = 0 →
  let p := pages_ s !!! f in
  delete_page PAGE_SIZE pid s =
  (true,
   mkBPM (alter (reset_memory PAGE_SIZE) f (pages_ s))
         (delete pid (page_table_ s))
         (free_list_ s ++ [f])
         (if is_dirty_ p
          then write_page (disk_manager_ s) (fd (id_ p)) (page_no (id_ p))
                          (data_ p) PAGE_SIZE
          else disk_manager_ s)
         (unpin (replacer_ s) f)
         (trace_ s ++
          (if is_dirty_ p
           then [EvWrite (fd (id_ p)) (page_no (id_ p)) (data_ p)] else []) ++
          [EvUnpin f])).
Proof.
  intros Hp Hz. run_unfold. rewrite Hp. simpl.
  destruct (decide (pin_count_ (pages_ s !!! f) ≠ 0)); [done|]. simpl.
  destruct (is_dirty_ (pages_ s !!! f)); simpl; rewrite <- ?app_assoc; done.
Qed.

(** For every store and replacer: when a dirty unpinned page is deleted
    while the free list is empty, the next [fetch_page] of a page that is
    not resident takes the released frame and writes it back a second
    time, at the deleted identity and with the reset bytes. *)
Lemma deleted_dirty_frame_rewritten (s : BPM) pid pid' f :
  page_table_ s !! pid = Some f →
  (f < pool_size_ s)%nat →
  pin_count_ (pages_ s !!! f) = 0 →
  is_dirty_ (pages_ s !!! f) = true →
  free_list_ s = [] →
  delete pid (page_table_ s) !! pid' = None →
  let p := pages_ s !!! f in
  let s1 := (delete_page PAGE_SIZE pid s).2 in
  trace_ (fetch_page PAGE_SIZE pid' s1).2 =
  trace_ s ++ [EvWrite (fd (id_ p)) (page_no (id_ p)) (data_ p); EvUnpin f;
               EvWrite (fd (id_ p)) (page_no (id_ p)) (repeat x00 PAGE_SIZE);
               EvRead (fd pid') (page_no pid'); EvPin f].
Proof.
  intros Hp Hlt Hz Hd Hfl Hp'. unfold pool_size_ in Hlt.
  rewrite (delete_page_released s pid f Hp Hz). rewrite Hd, Hfl. simpl.
  erewrite fetch_page_acquired; simpl.
  2: exact Hp'.
  2: { apply find_victim_page_free. simpl. reflexivity. }
  2: { unfold pool_size_. simpl. rewrite length_alter. exact Hlt. }
  simpl. rewrite list_lookup_total_alter_eq by exact Hlt. simpl.
  rewrite Hd. simpl. rewrite <- app_assoc. done.
Qed.

End Proofs.

(** ** The reference replacer meets the contract *)

Lemma drop_frame_eligible (f : frame_id_t) (r : list frame_id_t) :
  list_to_set (C := gset frame_id_t) (drop_frame f r) = list_to_set r ∖ {[f]}.
Proof.
  unfold drop_frame. apply set_eq. intros x.
  rewrite elem_of_difference, !elem_of_list_to_set, list_elem_of_filter,
    elem_of_singleton.
  tauto.
Qed.

Global Instance Lru_replacer_spec : ReplacerSpec (list frame_id_t).
Proof.
  refine {| eligible := λ r, list_to_set r |}.
  - intros [|g r0] r' f Hv; simpl in Hv; [done|].
    inversion Hv; subst. split.
    + set_solver.
    + rewrite drop_frame_eligible. set_solver.
  - intros [|g r0] r' Hv; simpl in Hv; [|done].
    inversion Hv; subst. done.
  - intros r f. simpl. apply drop_frame_eligible.
  - intros r f. simpl. destruct (decide (f ∈ r)).
    + set_solver.
    + rewrite list_to_set_app_L. set_solver.
Defined.

Lemma pool_inv (n : nat) : bpm_inv (pool n).
Proof. apply init_bpm_inv. done. Qed.

Lemma run_inv (os : list Op) (n : nat) : bpm_inv (run os n).
Proof. apply run_ops_inv, pool_inv. Qed.

(** ** The scenarios of the specification, run on the model *)

(** Capacity 2: two pages are created in frames 0 and 1 from the free
    list, and fetching the first again makes no store call. *)
Example scenario_two_frames :
  let s := run [OpNew (mkPageId 1 0); OpUnpin (mkPageId 1 0) false;
                OpNew (mkPageId 1 0); OpUnpin (mkPageId 1 1) false] 2 in
  fetch_page 2 (mkPageId 1 0) s = (Some 0%nat, run_op 2 (-1) table_keys (OpFetch (mkPageId 1 0)) s) ∧
  trace_ (run_op 2 (-1) table_keys (OpFetch (mkPageId 1 0)) s) = trace_ s ++ [EvPin 0%nat] ∧
  page_table_ s !! mkPageId 1 1 = Some 1%nat.
Proof. vm_compute. done. Qed.

(** Capacity 1: the second [new_page] fails while the page is pinned, and
    succeeds after [unpin_page (1,0) true], writing [(1,0)] back first. *)
Example scenario_one_frame :
  (new_page 2 (mkPageId 1 0) one_pinned).1 = (mkPageId 1 0, None) ∧
  let s := run_op 2 (-1) table_keys (OpUnpin (mkPageId 1 0) true) one_pinned in
  (new_page 2 (mkPageId 1 0) s).1 = (mkPageId 1 1, Some 0%nat) ∧
  trace_ (new_page 2 (mkPageId 1 0) s).2 =
    trace_ s ++ [EvVictim (Some 0%nat); EvAlloc 1 1;
                 EvWrite 1 0 [x00; x00]; EvPin 0%nat].
Proof. vm_compute. done. Qed.

Example scenario_delete_absent :
  delete_page 2 (mkPageId 9 9) (pool 2) = (true, pool 2).
Proof. vm_compute. done. Qed.

Example scenario_flush_invalid :
  (flush_page 2 (-1) (mkPageId 1 (-1)) one_pinned).1 = false.
Proof. vm_compute. done. Qed.

(** ** A frame released by delete_page is written back again *)

(** C1 (the code departs from it).  Page [(1,0)] is dirty and unpinned with
    bytes [01 02].  [delete_page] writes those bytes back and puts the frame
    on the free list, still flagged dirty; the next [fetch_page] takes the
    frame from the free list and writes it back a second time, now with
    the reset bytes, so the store ends with zeros at [(1,0)], and fetching
    [(1,0)] itself brings back zeros.  The same double write shows on a
    run made of public calls only. *)
Theorem C1_deleted_dirty_frame_written_twice :
  let s1 := (delete_page 2 (mkPageId 1 0) dirty_resident).2 in
  let r := fetch_page 2 (mkPageId 1 7) s1 in
  free_list_ s1 = [0%nat] ∧
  is_dirty_ (pages_ s1 !!! 0%nat) = true ∧
  r.1 = Some 0%nat ∧
  trace_ r.2 = [EvWrite 1 0 [x01; x02]; EvUnpin 0%nat;
                EvWrite 1 0 [x00; x00]; EvRead 1 7; EvPin 0%nat] ∧
  md_store (disk_manager_ r.2) !! mkPageId 1 0 = Some [x00; x00] ∧
  data_ (pages_ (fetch_page 2 (mkPageId 1 0) s1).2 !!! 0%nat) = [x00; x00] ∧
  trace_ (run [OpNew (mkPageId 1 0); OpUnpin (mkPageId 1 0) true;
               OpDelete (mkPageId 1 0); OpNew (mkPageId 1 0)] 1) =
    [EvAlloc 1 0; EvPin 0%nat; EvUnpin 0%nat;
     EvWrite 1 0 [x00; x00]; EvUnpin 0%nat;
     EvAlloc 1 1; EvWrite 1 0 [x00; x00]; EvPin 0%nat].
Proof. vm_compute. done. Qed.

(** ** The theorems at concrete inputs *)

(** The hand-written state is a consistent pool state. *)
Lemma dirty_resident_inv : bpm_inv dirty_resident.
Proof.
  split; unfold dirty_resident, pool_size_; simpl.
  - intros p f Hp. apply lookup_singleton_Some in Hp as [<- <-].
    split; [lia|done].
  - apply NoDup_nil_2.
  - intros f Hin. by apply not_elem_of_nil in Hin.
  - intros f Hin. assert (f = 0%nat) as -> by set_solver.
    split; [lia|done].
  - intros f Hlt. assert (f = 0%nat) as -> by lia. done.
Qed.

Lemma one_pinned_inv : bpm_inv one_pinned.
Proof. apply run_inv. Qed.

Lemma one_pinned_in_range (pid : PageId) (f : frame_id_t) :
  page_table_ one_pinned !! pid = Some f → (f < pool_size_ one_pinned)%nat.
Proof. intros Hp. by destruct (inv_table _ one_pinned_inv _ _ Hp). Qed.


Lemma two_resident_inv : bpm_inv two_resident.
Proof. apply run_inv. Qed.

(** Both frames host a page; the fetch evicts [(1,0)] from frame 0 and the
    table again has two entries, one per frame. *)
Lemma C2_witness :
  page_table_ two_resident !! mkPageId 1 0 = Some 0%nat ∧
  page_table_ two_resident !! mkPageId 1 1 = Some 1%nat ∧
  let s' := run_op 2 (-1) table_keys (OpFetch (mkPageId 1 7)) two_resident in
  page_table_ s' !! mkPageId 1 7 = Some 0%nat ∧
  page_table_ s' !! mkPageId 1 1 = Some 1%nat ∧
  page_table_injective s'.
Proof.
  split; [vm_compute; reflexivity|]. split; [vm_compute; reflexivity|].
  split; [vm_compute; reflexivity|]. split; [vm_compute; reflexivity|].
  exact (proj1 (C2_page_table_stays_injective 2 (-1) table_keys two_resident
                  [] (OpFetch (mkPageId 1 7)) two_resident_inv)).
Defined.

Lemma C3_witness :
  (fetch_page 2 (mkPageId 1 0) one_pinned).1 = Some 0%nat ∧
  pin_count_ (pages_ (fetch_page 2 (mkPageId 1 0) one_pinned).2 !!! 0%nat) = 2.
Proof.
  pose proof (C3_fetch_resident_pins_without_io 2 one_pinned (mkPageId 1 0) 0%nat)
    as H.
  destruct H as (H1 & _ & _ & _ & H5 & _).
  - vm_compute. reflexivity.
  - vm_compute. lia.
  - vm_compute. reflexivity.
  - split; [exact H1|exact H5].
Defined.

Lemma C5_witness :
  is_dirty_ (pages_ (unpin_page (mkPageId 1 0) true one_pinned).2 !!! 0%nat)
  = true.
Proof.
  apply (proj1 (C5_unpin_dirty_monotonic one_pinned (mkPageId 1 0) true) 0%nat).
  - vm_compute. reflexivity.
  - vm_compute. lia.
  - vm_compute. reflexivity.
Defined.

Lemma C6_witness :
  (flush_page 2 (-1) (mkPageId 1 0) one_pinned).1 = true ∧
  is_dirty_ (pages_ (flush_page 2 (-1) (mkPageId 1 0) one_pinned).2 !!! 0%nat)
  = false.
Proof.
  pose proof (C6_flush_page 2 (-1) one_pinned (mkPageId 1 0)
                (one_pinned_in_range (mkPageId 1 0))) as H.
  destruct H as (_ & _ & H).
  destruct (H 0%nat) as (H1 & _ & _ & H4 & _).
  - vm_compute. reflexivity.
  - vm_compute. discriminate.
  - split; [exact H1|exact H4].
Defined.

Lemma C7_witness :
  (delete_page 2 (mkPageId 1 0) dirty_resident).1 = true ∧
  free_list_ (delete_page 2 (mkPageId 1 0) dirty_resident).2 = [0%nat] ∧
  delete_page 2 (mkPageId 1 0) one_pinned = (false, one_pinned) ∧
  delete_page 2 (mkPageId 9 9) one_pinned = (true, one_pinned).
Proof.
  pose proof (C7_delete_page 2 dirty_resident (mkPageId 1 0)) as (_ & _ & H).
  pose proof (C7_delete_page 2 one_pinned (mkPageId 1 0)) as (_ & Hp & _).
  pose proof (C7_delete_page 2 one_pinned (mkPageId 9 9)) as (Ha & _).
  destruct (H 0%nat) as (H1 & _ & _ & _ & _ & _ & _ & _ & H9).
  - vm_compute. reflexivity.
  - vm_compute. lia.
  - vm_compute. reflexivity.
  - split; [exact H1|]. split; [exact H9|]. split.
    + apply (Hp 0%nat); vm_compute; [reflexivity|discriminate].
    + apply Ha. vm_compute. reflexivity.
Defined.



Lemma C10_witness :
  (new_page 2 (mkPageId 1 0) one_pinned).1 = (mkPageId 1 0, None) ∧
  disk_manager_ (new_page 2 (mkPageId 1 0) one_pinned).2
  = disk_manager_ one_pinned.
Proof.
  pose proof (C10_new_page_allocates_after_frame 2 one_pinned (mkPageId 1 0))
    as (H & _).
  destruct H as (H1 & _ & H3 & _).
  - vm_compute. reflexivity.
  - split; [exact H1|exact H3].
Defined.

(** * Further properties of the member functions *)

Section MoreProofs.

Context {D R : Type} `{DM : DiskManager D} `{RP : Replacer R}.
Context `{RS : !ReplacerSpec R}.
Variable PAGE_SIZE : nat.
Variable INVALID_PAGE_ID : Z.
Variable key_order : gmap PageId frame_id_t → list PageId.

Local Abbreviation BPM := (@BufferPoolManager D R).

(** ** What find_victim_page leaves alone *)

Lemma find_victim_page_frames (s : BPM) :
  let r := find_victim_page s in
  pages_ r.2 = pages_ s ∧
  disk_manager_ r.2 = disk_manager_ s ∧
  ∃ evs, trace_ r.2 = trace_ s ++ evs ∧ ∀ e, e ∈ evs → ∃ v, e = EvVictim v.
Proof.
  destruct (free_list_ s) as [|f rest] eqn:Hfl.
  - destruct (victim (replacer_ s)) as [r' [f|]] eqn:Hv.
    + rewrite (find_victim_page_evict s r' f Hfl Hv). simpl.
      split; [done|]. split; [done|]. eexists. split; [done|].
      intros e He. apply list_elem_of_singleton in He. eauto.
    + rewrite (find_victim_page_none s r' Hfl Hv). simpl.
      split; [done|]. split; [done|]. eexists. split; [done|].
      intros e He. apply list_elem_of_singleton in He. eauto.
  - rewrite (find_victim_page_free s f rest Hfl). simpl.
    split; [done|]. split; [done|]. exists []. rewrite app_nil_r.
    split; [done|]. intros e He. by apply not_elem_of_nil in He.
Qed.

Lemma fetch_page_refused (s s1 : BPM) pid :
  page_table_ s !! pid = None →
  find_victim_page s = (None, s1) →
  fetch_page PAGE_SIZE pid s = (None, s1).
Proof.
  intros Hp Hfv. unfold fetch_page, bind at 1, table_find. rewrite Hp.
  unfold bind. rewrite Hfv. done.
Qed.

Lemma new_page_refused (s s1 : BPM) pid :
  find_victim_page s = (None, s1) →
  new_page PAGE_SIZE pid s = ((pid, None), s1).
Proof. intros Hfv. unfold new_page, bind. rewrite Hfv. done. Qed.

(** The frame and the intermediate state behind a successful miss. *)
Lemma fetch_page_miss_inv (s : BPM) pid f :
  page_table_ s !! pid = None →
  (fetch_page PAGE_SIZE pid s).1 = Some f →
  ∃ s1, find_victim_page s = (Some f, s1).
Proof.
  intros Hp Hr. destruct (find_victim_page s) as [[g|] s1] eqn:Hfv.
  - exists s1. unfold fetch_page, bind at 1, table_find in Hr. rewrite Hp in Hr.
    unfold bind at 1 in Hr. rewrite Hfv in Hr.
    assert (g = f) as ->; [|done].
    revert Hr. run_unfold.
    repeat match goal with
           | |- context [if ?b then _ else _] => destruct b; simpl
           | |- context [read_page ?a ?b ?c ?d ?e] =>
               destruct (read_page a b c d e); simpl
           end; congruence.
  - rewrite (fetch_page_refused s s1 pid Hp Hfv) in Hr. done.
Qed.

Lemma new_page_success_inv (s : BPM) pid nid f :
  (new_page PAGE_SIZE pid s).1 = (nid, Some f) →
  ∃ s1, find_victim_page s = (Some f, s1).
Proof.
  intros Hr. destruct (find_victim_page s) as [[g|] s1] eqn:Hfv.
  - exists s1. rewrite (new_page_acquired PAGE_SIZE s s1 pid g Hfv) in Hr.
    simpl in Hr. congruence.
  - rewrite (new_page_refused s s1 pid Hfv) in Hr. done.
Qed.

(** A successful miss returns the frame [find_victim_page] handed out. *)
Lemma fetch_page_miss_result (s s1 : BPM) pid f :
  page_table_ s !! pid = None →
  find_victim_page s = (Some f, s1) →
  (fetch_page PAGE_SIZE pid s).1 = Some f.
Proof.
  intros Hp Hfv. unfold fetch_page, bind at 1, table_find. rewrite Hp.
  unfold bind at 1. rewrite Hfv. run_unfold.
  repeat match goal with
         | |- context [if ?b then _ else _] => destruct b; simpl
         | |- context [read_page ?a ?b ?c ?d ?e] =>
             destruct (read_page a b c d e); simpl
         end; done.
Qed.

(** ** The free list is used before the replacer *)

(** X1.  While the free list is not empty, [new_page] and a [fetch_page]
    miss take its first frame, leave the rest of the list, and do not call
    [victim]: the only replacer call is [pin] of that frame. *)
Theorem X1_free_list_before_replacer (s : BPM) pid f rest :
  free_list_ s = f :: rest →
  (let r := new_page PAGE_SIZE pid s in
   r.1.2 = Some f ∧
   free_list_ r.2 = rest ∧
   replacer_ r.2 = pin (replacer_ s) f ∧
   ∀ v, EvVictim v ∉ drop (length (trace_ s)) (trace_ r.2)) ∧
  (page_table_ s !! pid = None → (f < pool_size_ s)%nat →
   let r := fetch_page PAGE_SIZE pid s in
   r.1 = Some f ∧
   free_list_ r.2 = rest ∧
   replacer_ r.2 = pin (replacer_ s) f ∧
   ∀ v, EvVictim v ∉ drop (length (trace_ s)) (trace_ r.2)).
Proof.
  intros Hfl. pose proof (find_victim_page_free s f rest Hfl) as Hfv. split.
  - rewrite (new_page_acquired PAGE_SIZE s _ pid f Hfv). simpl.
    split; [done|]. split; [done|]. split; [done|].
    intros v. rewrite drop_app_length.
    destruct (is_dirty_ (pages_ s !!! f)); simpl;
      intros Hin; repeat (apply elem_of_cons in Hin as [Hin|Hin]; [done|]);
      by apply not_elem_of_nil in Hin.
  - intros Hp Hlt.
    rewrite (fetch_page_acquired PAGE_SIZE s _ pid f Hp Hfv) by exact Hlt. simpl.
    split; [done|]. split; [done|]. split; [done|].
    intros v. rewrite drop_app_length.
    destruct (is_dirty_ (pages_ s !!! f)); simpl;
      intros Hin; repeat (apply elem_of_cons in Hin as [Hin|Hin]; [done|]);
      by apply not_elem_of_nil in Hin.
Qed.

(** ** After delete_page *)

(** X2.  A successful [delete_page pid] appends the frame to the free list
    and makes [pid] non-resident: [unpin_page] and [flush_page] of it now
    fail, a second [delete_page] succeeds, all three without changing the
    state; and if the free list was empty, the next [new_page] gets the
    frame just released. *)
Theorem X2_delete_page_releases_frame (s : BPM) pid f :
  page_table_ s !! pid = Some f →
  pin_count_ (pages_ s !!! f) = 0 →
  let s' := (delete_page PAGE_SIZE pid s).2 in
  page_table_ s' !! pid = None ∧
  free_list_ s' = free_list_ s ++ [f] ∧
  (∀ d, unpin_page pid d s' = (false, s')) ∧
  flush_page PAGE_SIZE INVALID_PAGE_ID pid s' = (false, s') ∧
  delete_page PAGE_SIZE pid s' = (true, s') ∧
  (free_list_ s = [] → ∀ pid', (new_page PAGE_SIZE pid' s').1.2 = Some f).
Proof.
  intros Hp Hz s'. subst s'.
  rewrite (delete_page_released PAGE_SIZE s pid f Hp Hz). simpl.
  assert (Hgone : delete pid (page_table_ s) !! pid = None)
    by apply lookup_delete_eq.
  split; [done|]. split; [done|].
  split; [intros d; by apply unpin_page_absent|].
  split; [apply flush_page_refused; by left|].
  split; [by apply delete_page_absent|].
  intros Hfl pid'.
  erewrite new_page_acquired; [simpl; reflexivity|].
  apply find_victim_page_free. simpl. rewrite Hfl. done.
Qed.

(** ** Eviction *)

(** X3.  When the free list is empty and the replacer names frame [f],
    [find_victim_page] returns [f], which is a frame of the pool with pin
    count zero; afterwards no page table entry points to [f], every entry
    for another identity is as before, and [f] is no longer eligible. *)
Theorem X3_eviction_unmaps_victim (s : BPM) r' f :
  bpm_inv s →
  free_list_ s = [] →
  victim (replacer_ s) = (r', Some f) →
  let r := find_victim_page s in
  r.1 = Some f ∧
  (f < pool_size_ s)%nat ∧
  pin_count_ (pages_ s !!! f) = 0 ∧
  (∀ p, page_table_ r.2 !! p ≠ Some f) ∧
  (∀ p, p ≠ id_ (pages_ s !!! f) → page_table_ r.2 !! p = page_table_ s !! p) ∧
  pages_ r.2 = pages_ s ∧
  f ∉ eligible (replacer_ r.2).
Proof.
  intros Hinv Hfl Hv.
  destruct (victim_frame_facts s r' f Hinv Hv) as (Hlt & Hz & Hnt & Hel).
  rewrite (find_victim_page_evict s r' f Hfl Hv). simpl.
  split; [done|]. split; [done|]. split; [done|]. split; [done|].
  split; [intros p Hne; by rewrite lookup_delete_ne|].
  split; [done|]. rewrite Hel. set_solver.
Qed.

(** ** fetch_page of a page that is not resident *)

(** X4.  When [fetch_page pid] succeeds for a page that was not resident,
    the frame it returns is a frame of the pool that had pin count zero;
    it now holds identity [pid], clean, with pin count one, and the page
    table maps [pid] to it; no other frame changed; and the call made
    exactly one [read_page] call, for [pid], as its last store call. *)
Theorem X4_fetch_page_installs_page (s : BPM) pid f :
  bpm_inv s →
  page_table_ s !! pid = None →
  (fetch_page PAGE_SIZE pid s).1 = Some f →
  let s' := (fetch_page PAGE_SIZE pid s).2 in
  (f < pool_size_ s)%nat ∧
  pin_count_ (pages_ s !!! f) = 0 ∧
  id_ (pages_ s' !!! f) = pid ∧
  is_dirty_ (pages_ s' !!! f) = false ∧
  pin_count_ (pages_ s' !!! f) = 1 ∧
  page_table_ s' !! pid = Some f ∧
  (∀ g, g ≠ f → pages_ s' !!! g = pages_ s !!! g) ∧
  ∃ pre, trace_ s' = trace_ s ++ pre ++ [EvRead (fd pid) (page_no pid); EvPin f] ∧
         ∀ e a b, e ∈ pre → e ≠ EvRead a b.
Proof.
  intros Hinv Hp Hr s'. subst s'.
  destruct (fetch_page_miss_inv s pid f Hp Hr) as [s1 Hfv].
  destruct (find_victim_page_unpinned s s1 f Hinv Hfv) as [Hlt Hz].
  pose proof (find_victim_page_frames s) as Hfr. rewrite Hfv in Hfr.
  simpl in Hfr. destruct Hfr as (Hpg & _ & evs & Htr & Hevs).
  assert (Hlt1 : (f < pool_size_ s1)%nat) by (unfold pool_size_; by rewrite Hpg).
  rewrite (fetch_page_acquired PAGE_SIZE s s1 pid f Hp Hfv Hlt1). simpl.
  unfold pool_size_ in Hlt1.
  rewrite list_lookup_total_alter_eq by exact Hlt1. simpl.
  split; [done|]. split; [done|]. split; [done|]. split; [done|].
  split; [done|]. split; [apply lookup_insert_eq|].
  split; [intros g Hne; rewrite list_lookup_total_alter_ne by done;
          by rewrite Hpg|].
  exists (evs ++ if is_dirty_ (pages_ s1 !!! f)
                 then [EvWrite (fd (id_ (pages_ s1 !!! f)))
                               (page_no (id_ (pages_ s1 !!! f)))
                               (data_ (pages_ s1 !!! f))]
                 else []).
  split; [rewrite Htr, <- !app_assoc; done|].
  intros e a b Hin. apply elem_of_app in Hin as [Hin|Hin].
  - destruct (Hevs e Hin) as [v ->]. done.
  - destruct (is_dirty_ (pages_ s1 !!! f)); simpl in Hin.
    + apply list_elem_of_singleton in Hin as ->. done.
    + by apply not_elem_of_nil in Hin.
Qed.

(** X5.  [fetch_page] returns no frame exactly when the page is not
    resident, the free list is empty and the replacer has no victim; the
    frames, the page table, the free list and the store are then as
    before, and the only collaborator call was [victim]. *)
Theorem X5_fetch_page_fails_only_when_exhausted (s : BPM) pid :
  let r := fetch_page PAGE_SIZE pid s in
  (r.1 = None ↔
     page_table_ s !! pid = None ∧ free_list_ s = [] ∧
     (victim (replacer_ s)).2 = None) ∧
  (r.1 = None →
     pages_ r.2 = pages_ s ∧
     page_table_ r.2 = page_table_ s ∧
     free_list_ r.2 = free_list_ s ∧
     disk_manager_ r.2 = disk_manager_ s ∧
     trace_ r.2 = trace_ s ++ [EvVictim None]).
Proof.
  destruct (page_table_ s !! pid) as [f|] eqn:Hp.
  { rewrite (fetch_page_hit PAGE_SIZE s pid f Hp). simpl.
    split; [split; [done|intros (? & _); done]|done]. }
  destruct (free_list_ s) as [|f rest] eqn:Hfl.
  - destruct (victim (replacer_ s)) as [r' [f|]] eqn:Hv.
    + pose proof (find_victim_page_evict s r' f Hfl Hv) as Hfv.
      pose proof (fetch_page_miss_result s _ pid f Hp Hfv) as Hres.
      cbv zeta. rewrite Hres.
      split; [split; [done|intros (_ & _ & ?); done]|done].
    + pose proof (find_victim_page_none s r' Hfl Hv) as Hfv.
      rewrite (fetch_page_refused s _ pid Hp Hfv). simpl.
      split; [done|]. intros _. by rewrite Hfl.
  - pose proof (find_victim_page_free s f rest Hfl) as Hfv.
    pose proof (fetch_page_miss_result s _ pid f Hp Hfv) as Hres.
    cbv zeta. rewrite Hres.
    split; [split; [done|intros (_ & ? & _); done]|done].
Qed.

(** X6.  When the replacer evicts frame [f] for a [fetch_page] miss, the
    calls are, in this order: [victim]; one [write_page] of the bytes and
    at the identity the frame held, if and only if it was dirty;
    [read_page] of the requested page; [pin].  [new_page] makes the same
    write-back between [allocate_page] and [pin].  The evicted identity is
    no longer resident after the fetch. *)
Theorem X6_evicted_page_written_back_first (s : BPM) pid r' f :
  bpm_inv s →
  page_table_ s !! pid = None →
  free_list_ s = [] →
  victim (replacer_ s) = (r', Some f) →
  let p := pages_ s !!! f in
  let wb := if is_dirty_ p
            then [EvWrite (fd (id_ p)) (page_no (id_ p)) (data_ p)] else [] in
  trace_ (fetch_page PAGE_SIZE pid s).2 =
    trace_ s ++ [EvVictim (Some f)] ++ wb ++
    [EvRead (fd pid) (page_no pid); EvPin f] ∧
  (∀ pid0,
     trace_ (new_page PAGE_SIZE pid0 s).2 =
       trace_ s ++ [EvVictim (Some f)] ++
       [EvAlloc (fd pid0) (allocate_page (disk_manager_ s) (fd pid0)).2] ++
       wb ++ [EvPin f]) ∧
  (id_ p ≠ pid → page_table_ (fetch_page PAGE_SIZE pid s).2 !! id_ p = None).
Proof.
  intros Hinv Hp Hfl Hv.
  destruct (victim_frame_facts s r' f Hinv Hv) as (Hlt & _).
  pose proof (find_victim_page_evict s r' f Hfl Hv) as Hfv.
  split; [|split].
  - rewrite (fetch_page_acquired PAGE_SIZE s _ pid f Hp Hfv) by exact Hlt.
    simpl. by rewrite <- app_assoc.
  - intros pid0. rewrite (new_page_acquired PAGE_SIZE s _ pid0 f Hfv). simpl.
    by rewrite <- app_assoc.
  - intros Hne.
    rewrite (fetch_page_acquired PAGE_SIZE s _ pid f Hp Hfv) by exact Hlt. simpl.
    rewrite lookup_insert_ne by done.
    destruct (is_dirty_ (pages_ s !!! f)); rewrite ?delete_delete_eq;
      apply lookup_delete_eq.
Qed.

(** ** new_page *)

(** X7.  When [new_page] succeeds, the page number it reports is the one
    [allocate_page] returned for the caller's file; the frame had pin count
    zero and now holds the new identity, clean, with pin count one, and
    still the bytes it held before the call: [new_page] does not reset
    them.  The page table maps the new identity to the frame and no other
    frame changed. *)
Theorem X7_new_page_keeps_previous_bytes (s : BPM) pid nid f :
  bpm_inv s →
  (new_page PAGE_SIZE pid s).1 = (nid, Some f) →
  let s' := (new_page PAGE_SIZE pid s).2 in
  nid = mkPageId (fd pid) (allocate_page (disk_manager_ s) (fd pid)).2 ∧
  (f < pool_size_ s)%nat ∧
  pin_count_ (pages_ s !!! f) = 0 ∧
  pages_ s' !!! f = mkPage (data_ (pages_ s !!! f)) nid false 1 ∧
  page_table_ s' !! nid = Some f ∧
  (∀ g, g ≠ f → pages_ s' !!! g = pages_ s !!! g).
Proof.
  intros Hinv Hr s'. subst s'.
  destruct (new_page_success_inv s pid nid f Hr) as [s1 Hfv].
  destruct (find_victim_page_unpinned s s1 f Hinv Hfv) as [Hlt Hz].
  pose proof (find_victim_page_frames s) as Hfr. rewrite Hfv in Hfr.
  simpl in Hfr. destruct Hfr as (Hpg & Hdm & _).
  rewrite (new_page_acquired PAGE_SIZE s s1 pid f Hfv) in Hr |- *.
  simpl in Hr |- *. rewrite Hdm, Hpg in *.
  assert (nid = mkPageId (fd pid) (allocate_page (disk_manager_ s) (fd pid)).2)
    as -> by congruence.
  unfold pool_size_ in Hlt.
  split; [done|]. split; [done|]. split; [done|].
  split; [|split; [apply lookup_insert_eq|]].
  - destruct (is_dirty_ (pages_ s !!! f)) eqn:Hd;
      pool_norm Hlt; unfold set_id, set_pin_count, set_dirty; simpl;
      by rewrite ?Hd.
  - intros g Hne.
    destruct (is_dirty_ (pages_ s !!! f));
      rewrite !list_lookup_total_alter_ne by done; done.
Qed.

(** ** Pin and unpin compose *)

Lemma run_ops_cons (o : Op) (os : list Op) (s : BPM) :
  run_ops PAGE_SIZE INVALID_PAGE_ID key_order (o :: os) s =
  run_ops PAGE_SIZE INVALID_PAGE_ID key_order os (run_op PAGE_SIZE INVALID_PAGE_ID key_order o s).
Proof. done. Qed.

(** [k] fetches of a resident page add [k] to its pin count and change
    nothing else in the frames, the page table, the free list or the
    store. *)
Lemma fetch_resident_repeat (k : nat) (s : BPM) pid f :
  page_table_ s !! pid = Some f →
  (f < pool_size_ s)%nat →
  let s' := run_ops PAGE_SIZE INVALID_PAGE_ID key_order (replicate k (OpFetch pid)) s in
  pages_ s' = alter (λ p, set_pin_count (pin_count_ p + Z.of_nat k) p) f
                    (pages_ s) ∧
  page_table_ s' = page_table_ s ∧
  free_list_ s' = free_list_ s ∧
  disk_manager_ s' = disk_manager_ s.
Proof.
  revert s. induction k as [|k IH]; intros s Hp Hlt.
  - simpl. split; [|done]. symmetry. apply list_alter_id.
    intros [d i b c]. unfold set_pin_count. simpl. f_equal. lia.
  - cbv zeta. simpl replicate. rewrite run_ops_cons.
    set (s0 := mkBPM (alter (λ p, set_pin_count (pin_count_ p + 1) p) f
                            (pages_ s))
                     (page_table_ s) (free_list_ s) (disk_manager_ s)
                     (pin (replacer_ s) f) (trace_ s ++ [EvPin f])).
    replace (run_op PAGE_SIZE INVALID_PAGE_ID key_order (OpFetch pid) s) with s0
      by (simpl; by rewrite (fetch_page_hit PAGE_SIZE s pid f Hp)).
    destruct (IH s0) as (Hpg & Ht & Hf & Hd);
      [done|unfold pool_size_; simpl; by rewrite length_alter|].
    rewrite Hpg, Ht, Hf, Hd. simpl. split; [|done].
    rewrite list_alter_alter_eq. apply list_alter_ext; [|done].
    intros x _. unfold set_pin_count. simpl. f_equal. lia.
Qed.

(** X8.  On a resident page with pin count [c], as long as [c + k] does
    not exceed the counter's maximum, [k] calls of [fetch_page] bring the
    pin count to [c + k] and touch nothing else, and [k] calls of
    [unpin_page pid false] after them give back the frames, page table,
    free list and store of the start. *)
Theorem X8_fetch_then_unpin_restores (s : BPM) pid f (k : nat) :
  page_table_ s !! pid = Some f →
  (f < pool_size_ s)%nat →
  0 ≤ pin_count_ (pages_ s !!! f) →
  pin_count_ (pages_ s !!! f) + Z.of_nat k ≤ PIN_COUNT_MAX →
  let fetches := replicate k (OpFetch pid) in
  let unpins := replicate k (OpUnpin pid false) in
  let s1 := run_ops PAGE_SIZE INVALID_PAGE_ID key_order fetches s in
  let s2 := run_ops PAGE_SIZE INVALID_PAGE_ID key_order unpins s1 in
  pin_count_ (pages_ s1 !!! f) = pin_count_ (pages_ s !!! f) + Z.of_nat k ∧
  (∀ g, g ≠ f → pages_ s1 !!! g = pages_ s !!! g) ∧
  page_table_ s1 = page_table_ s ∧
  disk_manager_ s1 = disk_manager_ s ∧
  pages_ s2 = pages_ s ∧
  page_table_ s2 = page_table_ s ∧
  free_list_ s2 = free_list_ s ∧
  disk_manager_ s2 = disk_manager_ s.
Proof.
  intros Hp Hlt Hnn _. cbv zeta.
  destruct (fetch_resident_repeat k s pid f Hp Hlt) as (Hpg & Ht & Hf & Hd).
  unfold pool_size_ in Hlt.
  split; [rewrite Hpg, list_lookup_total_alter_eq by exact Hlt; done|].
  split; [intros g Hne; rewrite Hpg, list_lookup_total_alter_ne by done; done|].
  split; [done|]. split; [done|].
  set (s1 := run_ops PAGE_SIZE INVALID_PAGE_ID key_order (replicate k (OpFetch pid)) s)
    in *.
  clearbody s1. revert s1 Hpg Ht Hf Hd.
  induction k as [|k IH]; intros s1 Hpg Ht Hf Hd.
  - simpl. split; [|done]. rewrite Hpg. apply list_alter_id.
    intros [d i b c]. unfold set_pin_count. simpl. f_equal. lia.
  - simpl replicate. rewrite run_ops_cons. simpl run_op.
    assert (Hc : pin_count_ (pages_ s1 !!! f)
                 = pin_count_ (pages_ s !!! f) + Z.of_nat (S k))
      by (rewrite Hpg, list_lookup_total_alter_eq by exact Hlt; done).
    rewrite (unpin_page_pinned s1 pid false f);
      [|by rewrite Ht|unfold pool_size_; by rewrite Hpg, length_alter|lia].
    simpl. apply IH; simpl; try done.
    rewrite Hpg, list_alter_alter_eq. apply list_alter_ext; [|done].
    intros [d i b c] _. unfold set_pin_count. simpl. f_equal. lia.
Qed.

(** ** Capacity *)

(** The page table and the free list never account for more frames than
    the pool has. *)
Lemma inv_capacity (s : BPM) :
  bpm_inv s →
  (size (page_table_ s) + length (free_list_ s) ≤ pool_size_ s)%nat.
Proof.
  intros Hinv.
  set (vals := (map_to_list (page_table_ s)).*2).
  assert (Hin : ∀ f, f ∈ vals → ∃ p, page_table_ s !! p = Some f).
  { intros f Hf. apply list_elem_of_fmap in Hf as ([p g] & -> & Hpg).
    exists p. by apply elem_of_map_to_list. }
  assert (Hnd : NoDup (vals ++ free_list_ s)).
  { apply NoDup_app. split; [|split; [|by apply inv_free_nodup]].
    - apply NoDup_fmap_2_strong; [|apply NoDup_map_to_list].
      intros [p1 f1] [p2 f2] H1 H2 Heq. simpl in Heq. subst f2.
      apply elem_of_map_to_list in H1, H2.
      by rewrite (inv_injective s Hinv p1 p2 f1 H1 H2).
    - intros f Hf Hfree. destruct (Hin f Hf) as [p Hp].
      destruct (inv_free _ Hinv f Hfree) as (_ & _ & Hnt). exact (Hnt p Hp). }
  assert (Hsub : vals ++ free_list_ s ⊆+ seq 0 (pool_size_ s)).
  { apply NoDup_submseteq; [done|]. intros f Hf. apply elem_of_seq.
    split; [lia|]. simpl. apply elem_of_app in Hf as [Hf|Hf].
    - destruct (Hin f Hf) as [p Hp]. by destruct (inv_table _ Hinv _ _ Hp).
    - by destruct (inv_free _ Hinv f Hf). }
  apply submseteq_length in Hsub.
  rewrite length_app, length_seq in Hsub. unfold vals in Hsub.
  rewrite length_fmap, length_map_to_list in Hsub. exact Hsub.
Qed.

(** ** The effect of a call on the frames *)

Lemma frame_effect_kept evs (p p' : Page) :
  data_ p' = data_ p → id_ p' = id_ p →
  (is_dirty_ p = true → is_dirty_ p' = true) →
  frame_effect evs p p'.
Proof.
  intros Hd Hi Hdirty. split; [by right|].
  intros Ht Hf. rewrite (Hdirty Ht) in Hf. done.
Qed.

Lemma op_effect_alter (s s' : BPM) g f0 evs :
  pages_ s' = alter g f0 (pages_ s) →
  trace_ s' = trace_ s ++ evs →
  ((f0 < pool_size_ s)%nat →
   frame_effect evs (pages_ s !!! f0) (g (pages_ s !!! f0))) →
  op_effect s s'.
Proof.
  intros Hpg Htr Hf0. exists evs. split; [done|].
  unfold pool_size_ in *. rewrite Hpg, length_alter. split; [done|].
  intros f Hlt. destruct (decide (f = f0)) as [->|Hne].
  - rewrite list_lookup_total_alter_eq by exact Hlt. auto.
  - rewrite list_lookup_total_alter_ne by done. by apply frame_effect_kept.
Qed.

Lemma op_effect_same (s s' : BPM) evs :
  pages_ s' = pages_ s → trace_ s' = trace_ s ++ evs → op_effect s s'.
Proof.
  intros Hpg Htr. exists evs. split; [done|].
  unfold pool_size_. rewrite Hpg. split; [done|].
  intros f _. by apply frame_effect_kept.
Qed.

Lemma op_effect_refl (s : BPM) : op_effect s s.
Proof. apply (op_effect_same s s []); [done|by rewrite app_nil_r]. Qed.

Lemma fetch_page_effect (s : BPM) pid :
  bpm_inv s → op_effect s (fetch_page PAGE_SIZE pid s).2.
Proof.
  intros Hinv. destruct (page_table_ s !! pid) as [f|] eqn:Hp.
  - rewrite (fetch_page_hit PAGE_SIZE s pid f Hp).
    eapply op_effect_alter; simpl; [done|done|].
    intros _. by apply frame_effect_kept.
  - pose proof (find_victim_page_frames s) as Hfr.
    destruct (find_victim_page s) as [[g|] s1] eqn:Hfv; simpl in Hfr;
      destruct Hfr as (Hpg & _ & evs & Htr & _).
    + destruct (find_victim_page_unpinned s s1 g Hinv Hfv) as [Hlt Hz].
      rewrite (fetch_page_acquired PAGE_SIZE s s1 pid g Hp Hfv)
        by (unfold pool_size_; by rewrite Hpg).
      eapply op_effect_alter; simpl.
      * rewrite Hpg. reflexivity.
      * rewrite Htr, <- app_assoc. reflexivity.
      * intros _. split; [by left|]. intros Hd _. rewrite Hpg, Hd.
        apply elem_of_app. right. apply list_elem_of_here.
    + rewrite (fetch_page_refused s s1 pid Hp Hfv).
      by eapply op_effect_same.
Qed.

Lemma new_page_effect (s : BPM) pid :
  bpm_inv s → op_effect s (new_page PAGE_SIZE pid s).2.
Proof.
  intros Hinv. pose proof (find_victim_page_frames s) as Hfr.
  destruct (find_victim_page s) as [[g|] s1] eqn:Hfv; simpl in Hfr;
    destruct Hfr as (Hpg & _ & evs & Htr & _).
  - destruct (find_victim_page_unpinned s s1 g Hinv Hfv) as [Hlt Hz].
    rewrite (new_page_acquired PAGE_SIZE s s1 pid g Hfv). simpl.
    rewrite Hpg.
    destruct (is_dirty_ (pages_ s !!! g)) eqn:Hd;
      (eapply op_effect_alter; simpl;
       [rewrite ?list_alter_alter_eq; reflexivity
       |rewrite Htr, <- app_assoc; reflexivity
       |intros _; split; [by left|]; intros Hd' _]).
    + apply elem_of_app. right. apply list_elem_of_further, list_elem_of_here.
    + congruence.
  - rewrite (new_page_refused s s1 pid Hfv). by eapply op_effect_same.
Qed.

Lemma unpin_page_effect (s : BPM) pid d :
  bpm_inv s → op_effect s (unpin_page pid d s).2.
Proof.
  intros Hinv. destruct (page_table_ s !! pid) as [f|] eqn:Hp;
    [|rewrite (unpin_page_absent s pid d Hp); apply op_effect_refl].
  destruct (inv_table _ Hinv _ _ Hp) as [Hlt _].
  destruct (decide (pin_count_ (pages_ s !!! f) = 0)) as [Hz|Hnz];
    [rewrite (unpin_page_zero s pid d f Hp Hz); apply op_effect_refl|].
  rewrite (unpin_page_pinned s pid d f Hp Hlt Hnz).
  eapply op_effect_alter; simpl; [done|done|].
  intros _. apply frame_effect_kept; simpl; [done|done|].
  intros ->. apply orb_true_r.
Qed.

Lemma flush_page_effect (s : BPM) pid :
  bpm_inv s → op_effect s (flush_page PAGE_SIZE INVALID_PAGE_ID pid s).2.
Proof.
  intros Hinv. destruct (page_table_ s !! pid) as [f|] eqn:Hp;
    [|rewrite flush_page_refused by (by left); apply op_effect_refl].
  destruct (decide (page_no pid = INVALID_PAGE_ID)) as [Hs|Hv];
    [rewrite flush_page_refused by (by right); apply op_effect_refl|].
  destruct (inv_table _ Hinv _ _ Hp) as [_ Hid].
  rewrite (flush_page_written PAGE_SIZE INVALID_PAGE_ID s pid f Hp Hv).
  eapply op_effect_alter; simpl; [done|done|].
  intros _. split; [by right|]. intros _ _. rewrite Hid.
  apply list_elem_of_here.
Qed.

Lemma delete_page_effect (s : BPM) pid :
  bpm_inv s → op_effect s (delete_page PAGE_SIZE pid s).2.
Proof.
  intros Hinv. destruct (page_table_ s !! pid) as [f|] eqn:Hp;
    [|rewrite delete_page_absent by done; apply op_effect_refl].
  destruct (decide (pin_count_ (pages_ s !!! f) = 0)) as [Hz|Hnz];
    [|rewrite (delete_page_pinned PAGE_SIZE s pid f Hp Hnz);
      apply op_effect_refl].
  rewrite (delete_page_released PAGE_SIZE s pid f Hp Hz).
  eapply op_effect_alter; simpl; [done|done|].
  intros _. split; [by left|]. simpl. congruence.
Qed.

Lemma flush_all_pages_effect (s : BPM) file :
  bpm_inv s →
  op_effect s (flush_all_pages PAGE_SIZE INVALID_PAGE_ID key_order file s).2.
Proof.
  intros Hinv. unfold flush_all_pages.
  set (keys := key_order (page_table_ s)).
  destruct (flush_each_spec PAGE_SIZE INVALID_PAGE_ID keys s)
    as (Hc & Htr & _ & Hkeep).
  { intros p f _ Hp. by destruct (inv_table _ Hinv _ _ Hp). }
  destruct Hc as (_ & _ & _ & Hn & Hpg).
  eexists. split; [exact Htr|]. split; [exact Hn|].
  intros f Hlt. destruct (Hpg f) as (Hd & Hi & _ & _).
  split; [by right|]. intros Hdirty Hclean.
  destruct (decide (Exists (λ p, page_table_ s !! p = Some f ∧
                                  page_no p ≠ INVALID_PAGE_ID) keys))
    as [Hex|Hnex].
  - apply Exists_exists in Hex as (p & Hin & Hp & Hv).
    destruct (inv_table _ Hinv _ _ Hp) as [_ ->].
    apply list_elem_of_In, in_flat_map. exists p.
    split; [by apply list_elem_of_In|].
    unfold flush_write. rewrite Hp.
    destruct (decide (page_no p = INVALID_PAGE_ID)); [done|]. by left.
  - rewrite Hkeep in Hclean; [congruence|].
    intros p Hin Hp.
    destruct (decide (page_no p = INVALID_PAGE_ID)) as [|Hv]; [done|].
    destruct Hnex. apply Exists_exists. eauto.
Qed.

Lemma run_op_effect (o : Op) (s : BPM) :
  bpm_inv s → op_effect s (run_op PAGE_SIZE INVALID_PAGE_ID key_order o s).
Proof.
  intros Hinv. destruct o; simpl.
  - by apply fetch_page_effect.
  - by apply unpin_page_effect.
  - by apply flush_page_effect.
  - by apply new_page_effect.
  - by apply delete_page_effect.
  - by apply flush_all_pages_effect.
Qed.

Lemma run_ops_pool_size (os : list Op) (s : BPM) :
  bpm_inv s →
  pool_size_ (run_ops PAGE_SIZE INVALID_PAGE_ID key_order os s) = pool_size_ s.
Proof.
  revert s. induction os as [|o os IH]; intros s Hinv; [done|].
  simpl. rewrite IH by (by apply run_op_inv).
  by destruct (run_op_effect o s Hinv) as (_ & _ & -> & _).
Qed.

(** X9.  Along any sequence of calls the frame pool keeps its size, and the
    number of resident pages plus the number of free frames never exceeds
    it. *)
Theorem X9_resident_pages_bounded (s : BPM) (os : list Op) :
  bpm_inv s →
  let s' := run_ops PAGE_SIZE INVALID_PAGE_ID key_order os s in
  pool_size_ s' = pool_size_ s ∧
  (size (page_table_ s') + length (free_list_ s') ≤ pool_size_ s)%nat.
Proof.
  intros Hinv s'. pose proof (run_ops_pool_size os s Hinv) as Hn.
  split; [done|]. rewrite <- Hn. apply inv_capacity, run_ops_inv, Hinv.
Qed.

(** X10.  No call changes the bytes or the identity of a frame whose pin
    count is positive. *)
Theorem X10_pinned_frame_keeps_content (s : BPM) (o : Op) f :
  bpm_inv s →
  (f < pool_size_ s)%nat →
  0 < pin_count_ (pages_ s !!! f) →
  let s' := run_op PAGE_SIZE INVALID_PAGE_ID key_order o s in
  data_ (pages_ s' !!! f) = data_ (pages_ s !!! f) ∧
  id_ (pages_ s' !!! f) = id_ (pages_ s !!! f).
Proof.
  intros Hinv Hlt Hpos s'.
  destruct (run_op_effect o s Hinv) as (evs & _ & _ & Hfr).
  destruct (Hfr f Hlt) as [[Hz|Hkept] _]; [lia|done].
Qed.

(** X11.  Whenever a call leaves clean a frame that was dirty, that call
    made a [write_page] call with the bytes the frame held, at the
    identity the frame held. *)
Theorem X11_dirty_cleared_only_by_write (s : BPM) (o : Op) f :
  bpm_inv s →
  (f < pool_size_ s)%nat →
  is_dirty_ (pages_ s !!! f) = true →
  let s' := run_op PAGE_SIZE INVALID_PAGE_ID key_order o s in
  let p := pages_ s !!! f in
  is_dirty_ (pages_ s' !!! f) = false →
  EvWrite (fd (id_ p)) (page_no (id_ p)) (data_ p)
    ∈ drop (length (trace_ s)) (trace_ s').
Proof.
  intros Hinv Hlt Hd s' p Hclean. subst s'.
  destruct (run_op_effect o s Hinv) as (evs & Htr & _ & Hfr).
  rewrite Htr, drop_app_length.
  destruct (Hfr f Hlt) as [_ Hw]. by apply Hw.
Qed.

(** X12.  Along any sequence of calls, a frame whose pin count is positive
    is neither on the free list nor eligible for eviction. *)
Theorem X12_pinned_frame_not_evictable (s : BPM) (os : list Op) f :
  bpm_inv s →
  let s' := run_ops PAGE_SIZE INVALID_PAGE_ID key_order os s in
  0 < pin_count_ (pages_ s' !!! f) →
  f ∉ free_list_ s' ∧ f ∉ eligible (replacer_ s').
Proof.
  intros Hinv s' Hpos. pose proof (run_ops_inv PAGE_SIZE INVALID_PAGE_ID key_order os s Hinv)
    as Hinv'. fold s' in Hinv'. split.
  - intros Hin. destruct (inv_free _ Hinv' f Hin) as (_ & Hz & _). lia.
  - intros Hin. destruct (inv_eligible _ Hinv' f Hin) as (_ & Hz). lia.
Qed.

(** ** flush_all_pages twice *)

Lemma page_ext (p q : Page) :
  data_ p = data_ q → id_ p = id_ q → is_dirty_ p = is_dirty_ q →
  pin_count_ p = pin_count_ q → p = q.
Proof. destruct p, q. simpl. congruence. Qed.

(** X13.  A second [flush_all_pages], with any argument, makes the same
    [write_page] calls as the first, in the same order and with the same
    bytes, and leaves every frame and the page table as the first call
    left them. *)
Theorem X13_flush_all_pages_twice (s : BPM) file file' :
  (∀ pid f, page_table_ s !! pid = Some f → (f < pool_size_ s)%nat) →
  let s1 := (flush_all_pages PAGE_SIZE INVALID_PAGE_ID key_order file s).2 in
  let s2 := (flush_all_pages PAGE_SIZE INVALID_PAGE_ID key_order file' s1).2 in
  drop (length (trace_ s1)) (trace_ s2) = drop (length (trace_ s)) (trace_ s1) ∧
  (∀ f, pages_ s2 !!! f = pages_ s1 !!! f) ∧
  page_table_ s2 = page_table_ s.
Proof.
  intros Hrange s1 s2. subst s2 s1. unfold flush_all_pages.
  set (keys := key_order (page_table_ s)).
  destruct (flush_each_spec PAGE_SIZE INVALID_PAGE_ID keys s)
    as (Hc & Htr & Hclean & Hkeep); [intros p f _ Hp; eauto|].
  set (s1 := (flush_each PAGE_SIZE INVALID_PAGE_ID keys s).2) in *.
  pose proof Hc as (Ht & _ & _ & Hn & Hpg).
  rewrite Ht. fold keys.
  destruct (flush_each_spec PAGE_SIZE INVALID_PAGE_ID keys s1)
    as (Hc2 & Htr2 & Hclean2 & Hkeep2).
  { intros p f _ Hp. rewrite Hn. rewrite Ht in Hp. eauto. }
  set (s2 := (flush_each PAGE_SIZE INVALID_PAGE_ID keys s1).2) in *.
  destruct Hc2 as (Ht2 & _ & _ & _ & Hpg2).
  split; [|split; [|congruence]].
  - rewrite Htr2, Htr, !drop_app_length. apply flat_map_ext. intros p.
    by apply flush_write_only_cleaned.
  - intros f.
    destruct (decide (Exists (λ p, page_table_ s !! p = Some f ∧
                                    page_no p ≠ INVALID_PAGE_ID) keys))
      as [Hex|Hnex].
    + apply Exists_exists in Hex as (p & Hin & Hp & Hv).
      destruct (Hpg2 f) as (Hd & Hi & Hpc & _).
      apply page_ext; try done.
      rewrite (Hclean p f Hin Hp Hv).
      apply (Hclean2 p f Hin); [by rewrite Ht|done].
    + apply Hkeep2. intros p Hin Hp. rewrite Ht in Hp.
      destruct (decide (page_no p = INVALID_PAGE_ID)) as [|Hv]; [done|].
      destruct Hnex. apply Exists_exists. eauto.
Qed.

(** ** Pin counts stay in range *)

Lemma pin_step_alter (s s' : BPM) g f0 :
  pages_ s' = alter g f0 (pages_ s) →
  ((f0 < pool_size_ s)%nat →
   pin_count_ (g (pages_ s !!! f0)) ≤ pin_count_ (pages_ s !!! f0) + 1) →
  ∀ f, (f < pool_size_ s)%nat →
       pin_count_ (pages_ s' !!! f) ≤ pin_count_ (pages_ s !!! f) + 1.
Proof.
  intros Hpg Hf0 f Hlt. rewrite Hpg. unfold pool_size_ in *.
  destruct (decide (f = f0)) as [->|Hne].
  - rewrite list_lookup_total_alter_eq by exact Hlt. auto.
  - rewrite list_lookup_total_alter_ne by done. lia.
Qed.

Lemma pin_step_only_cleaned (s s' : BPM) :
  only_cleaned s s' →
  ∀ f, pin_count_ (pages_ s' !!! f) ≤ pin_count_ (pages_ s !!! f) + 1.
Proof.
  intros (_ & _ & _ & _ & Hpg) f. destruct (Hpg f) as (_ & _ & -> & _). lia.
Qed.

(** One call raises a pin count by at most one. *)
Lemma run_op_pin_step (o : Op) (s : BPM) f :
  bpm_inv s → (f < pool_size_ s)%nat →
  pin_count_ (pages_ (run_op PAGE_SIZE INVALID_PAGE_ID key_order o s) !!! f)
  ≤ pin_count_ (pages_ s !!! f) + 1.
Proof.
  intros Hinv Hlt. revert f Hlt.
  destruct o as [pid|pid d|pid|pid|pid|file]; simpl.
  - destruct (page_table_ s !! pid) as [g|] eqn:Hp.
    + rewrite (fetch_page_hit PAGE_SIZE s pid g Hp).
      eapply pin_step_alter; simpl; [done|]. intros _. simpl. lia.
    + pose proof (find_victim_page_frames s) as Hfr.
      destruct (find_victim_page s) as [[g|] s1] eqn:Hfv; simpl in Hfr;
        destruct Hfr as (Hpg & _).
      * destruct (find_victim_page_unpinned s s1 g Hinv Hfv) as [Hlt Hz].
        rewrite (fetch_page_acquired PAGE_SIZE s s1 pid g Hp Hfv)
          by (unfold pool_size_; by rewrite Hpg).
        eapply pin_step_alter; simpl; [by rewrite Hpg|].
        intros _. simpl. lia.
      * rewrite (fetch_page_refused s s1 pid Hp Hfv).
        intros f _. simpl. rewrite Hpg. lia.
  - destruct (page_table_ s !! pid) as [g|] eqn:Hp;
      [|rewrite (unpin_page_absent s pid d Hp); intros; simpl; lia].
    destruct (inv_table _ Hinv _ _ Hp) as [Hlt _].
    destruct (decide (pin_count_ (pages_ s !!! g) = 0)) as [Hz|Hnz];
      [rewrite (unpin_page_zero s pid d g Hp Hz); intros; simpl; lia|].
    rewrite (unpin_page_pinned s pid d g Hp Hlt Hnz).
    eapply pin_step_alter; simpl; [done|]. intros _. simpl. lia.
  - intros f _. apply pin_step_only_cleaned, flush_page_only_cleaned.
  - pose proof (find_victim_page_frames s) as Hfr.
    destruct (find_victim_page s) as [[g|] s1] eqn:Hfv; simpl in Hfr;
      destruct Hfr as (Hpg & _).
    + destruct (find_victim_page_unpinned s s1 g Hinv Hfv) as [Hlt Hz].
      rewrite (new_page_acquired PAGE_SIZE s s1 pid g Hfv). cbv zeta.
      destruct (is_dirty_ (pages_ s1 !!! g));
        (eapply pin_step_alter;
         [simpl; rewrite Hpg, ?list_alter_alter_eq; reflexivity
         |intros _; simpl; lia]).
    + rewrite (new_page_refused s s1 pid Hfv).
      intros f _. simpl. rewrite Hpg. lia.
  - destruct (page_table_ s !! pid) as [g|] eqn:Hp;
      [|rewrite delete_page_absent by done; intros; simpl; lia].
    destruct (decide (pin_count_ (pages_ s !!! g) = 0)) as [Hz|Hnz];
      [|rewrite (delete_page_pinned PAGE_SIZE s pid g Hp Hnz); intros; simpl; lia].
    rewrite (delete_page_released PAGE_SIZE s pid g Hp Hz).
    eapply pin_step_alter; simpl; [done|]. intros _. simpl. lia.
  - intros f _. apply pin_step_only_cleaned. unfold flush_all_pages.
    apply flush_each_spec. intros p g _ Hp.
    by destruct (inv_table _ Hinv _ _ Hp).
Qed.

Lemma run_ops_pin_bound (os : list Op) (s : BPM) f :
  bpm_inv s → (f < pool_size_ s)%nat →
  pin_count_ (pages_ (run_ops PAGE_SIZE INVALID_PAGE_ID key_order os s) !!! f)
  ≤ pin_count_ (pages_ s !!! f) + Z.of_nat (length os).
Proof.
  revert s. induction os as [|o os IH]; intros s Hinv Hlt; [simpl; lia|].
  rewrite run_ops_cons.
  pose proof (run_op_pin_step o s f Hinv Hlt) as Hstep.
  assert (Hinv1 : bpm_inv (run_op PAGE_SIZE INVALID_PAGE_ID key_order o s))
    by (by apply run_op_inv).
  assert (Hlt1 : (f < pool_size_ (run_op PAGE_SIZE INVALID_PAGE_ID key_order o s))%nat).
  { destruct (run_op_effect o s Hinv) as (_ & _ & -> & _). done. }
  specialize (IH _ Hinv1 Hlt1). simpl length. lia.
Qed.

(** C4.  [unpin_page] returns [false] exactly when the page is not resident
    or its pin count is zero, and then leaves the state as it was.
    Otherwise it returns [true], lowers the pin count by one, and calls
    [unpin] on the replacer exactly when the count reaches zero.  From a
    state satisfying the pool invariant, along any sequence of calls short
    enough that no pin counter can reach its maximum, every pin count
    stays between zero and that maximum: it never goes negative. *)
Theorem C4_unpin_page_guard (s : BPM) pid dirty :
  bpm_inv s →
  let r := unpin_page pid dirty s in
  (r.1 = false ↔
     page_table_ s !! pid = None ∨
     ∃ f, page_table_ s !! pid = Some f ∧ pin_count_ (pages_ s !!! f) = 0) ∧
  (r.1 = false → r.2 = s) ∧
  (∀ f, page_table_ s !! pid = Some f → pin_count_ (pages_ s !!! f) ≠ 0 →
     r.1 = true ∧
     pin_count_ (pages_ r.2 !!! f) = pin_count_ (pages_ s !!! f) - 1 ∧
     0 ≤ pin_count_ (pages_ r.2 !!! f) ∧
     (pin_count_ (pages_ r.2 !!! f) = 0 →
        new_events s r.2 [EvUnpin f] ∧
        replacer_ r.2 = unpin (replacer_ s) f) ∧
     (pin_count_ (pages_ r.2 !!! f) ≠ 0 →
        new_events s r.2 [] ∧ replacer_ r.2 = replacer_ s) ∧
     disk_manager_ r.2 = disk_manager_ s ∧
     page_table_ r.2 = page_table_ s ∧
     free_list_ r.2 = free_list_ s ∧
     (∀ f', f' ≠ f → pages_ r.2 !!! f' = pages_ s !!! f')) ∧
  (∀ os,
     (∀ g, (g < pool_size_ s)%nat →
           pin_count_ (pages_ s !!! g) + Z.of_nat (length os) ≤ PIN_COUNT_MAX) →
     ∀ f, (f < pool_size_ s)%nat →
          0 ≤ pin_count_ (pages_ (run_ops PAGE_SIZE INVALID_PAGE_ID key_order
                                     os s) !!! f)
          ≤ PIN_COUNT_MAX).
Proof.
  intros Hinv r. subst r.
  assert (Hrange : ∀ os,
     (∀ g, (g < pool_size_ s)%nat →
           pin_count_ (pages_ s !!! g) + Z.of_nat (length os) ≤ PIN_COUNT_MAX) →
     ∀ f, (f < pool_size_ s)%nat →
          0 ≤ pin_count_ (pages_ (run_ops PAGE_SIZE INVALID_PAGE_ID key_order
                                     os s) !!! f)
          ≤ PIN_COUNT_MAX).
  { intros os Hb f Hlt. split.
    - apply inv_pin_nonneg; [apply run_ops_inv, Hinv|].
      by rewrite run_ops_pool_size.
    - pose proof (run_ops_pin_bound os s f Hinv Hlt). specialize (Hb f Hlt).
      lia. }
  destruct (page_table_ s !! pid) as [f|] eqn:Hp.
  - destruct (inv_table _ Hinv _ _ Hp) as [Hlt _].
    pose proof (inv_pin_nonneg _ Hinv f Hlt) as Hnn.
    destruct (decide (pin_count_ (pages_ s !!! f) = 0)) as [Hz|Hnz].
    + rewrite (unpin_page_zero s pid dirty f Hp Hz). simpl.
      split; [split; [intros _; right; eauto|done]|].
      split; [done|]. split; [|done].
      intros f' Hf'. inversion Hf'; subst f'. done.
    + rewrite (unpin_page_pinned s pid dirty f Hp Hlt Hnz). simpl.
      split.
      { split; [done|]. intros [Hc|(f' & Hf' & Hz)]; [done|].
        inversion Hf'; subst f'. done. }
      split; [done|]. split; [|done].
      intros f' Hf' _. inversion Hf'; subst f'.
      unfold pool_size_ in Hlt. unfold new_events. simpl.
      rewrite list_lookup_total_alter_eq by exact Hlt. simpl.
      split; [done|]. split; [done|]. split; [lia|].
      split; [intros Hz; rewrite bool_decide_eq_true_2 by lia; done|].
      split; [intros Hz; rewrite bool_decide_eq_false_2 by lia; done|].
      repeat split; try done.
      intros f'' Hne. rewrite list_lookup_total_alter_ne by done. done.
  - rewrite (unpin_page_absent s pid dirty Hp). simpl.
    split; [split; [intros _; left; done|done]|].
    split; [done|]. split; [intros f' Hf'; done|done].
Qed.

(** ** Resident identities name pages *)

Lemma find_victim_page_table (s : BPM) :
  page_table_ (find_victim_page s).2 ⊆ page_table_ s.
Proof.
  destruct (free_list_ s) as [|f rest] eqn:Hfl.
  - destruct (victim (replacer_ s)) as [r' [f|]] eqn:Hv.
    + rewrite (find_victim_page_evict s r' f Hfl Hv). apply delete_subseteq.
    + by rewrite (find_victim_page_none s r' Hfl Hv).
  - by rewrite (find_victim_page_free s f rest Hfl).
Qed.

(** As long as callers fetch only identities that name a page and the
    store never hands out [INVALID_PAGE_ID] as a page number, no resident
    identity has the invalid page number. *)
Lemma run_ops_valid_ids (os : list Op) (s : BPM) :
  (∀ d file, (allocate_page (D := D) d file).2 ≠ INVALID_PAGE_ID) →
  Forall (λ o, ∀ pid, o = OpFetch pid → page_no pid ≠ INVALID_PAGE_ID) os →
  bpm_inv s →
  (∀ pid f, page_table_ s !! pid = Some f → page_no pid ≠ INVALID_PAGE_ID) →
  ∀ pid f,
    page_table_ (run_ops PAGE_SIZE INVALID_PAGE_ID key_order os s) !! pid
    = Some f →
    page_no pid ≠ INVALID_PAGE_ID.
Proof.
  intros Halloc. revert s.
  induction os as [|o os IH]; intros s Hall Hinv Hvalid; [done|].
  apply Forall_cons in Hall as [Ho Hall]. rewrite run_ops_cons.
  apply IH; [done|by apply run_op_inv|]. clear IH Hall.
  assert (Hsub : ∀ pid f,
            page_table_ (find_victim_page s).2 !! pid = Some f →
            page_no pid ≠ INVALID_PAGE_ID).
  { intros pid f Hp. apply (Hvalid pid f).
    eapply lookup_weaken; [exact Hp|apply find_victim_page_table]. }
  assert (Hins : ∀ (m : gmap PageId frame_id_t) nid g pid f,
            page_no nid ≠ INVALID_PAGE_ID →
            (∀ p h, m !! p = Some h → page_no p ≠ INVALID_PAGE_ID) →
            <[nid := g]> m !! pid = Some f → page_no pid ≠ INVALID_PAGE_ID).
  { intros m nid g pid f Hn Hm Hp. destruct (decide (nid = pid)) as [<-|Hne];
      [done|]. rewrite lookup_insert_ne in Hp by done. eauto. }
  destruct o as [pid0|pid0 d|pid0|pid0|pid0|file]; simpl.
  - destruct (page_table_ s !! pid0) as [g|] eqn:Hp0.
    + by rewrite (fetch_page_hit PAGE_SIZE s pid0 g Hp0).
    + pose proof (find_victim_page_frames s) as Hfr.
      destruct (find_victim_page s) as [[g|] s1] eqn:Hfv; simpl in Hfr, Hsub;
        destruct Hfr as (Hpg & _).
      * destruct (find_victim_page_unpinned s s1 g Hinv Hfv) as [Hlt _].
        rewrite (fetch_page_acquired PAGE_SIZE s s1 pid0 g Hp0 Hfv)
          by (unfold pool_size_; by rewrite Hpg).
        simpl. intros pid f. apply Hins; [by apply Ho|].
        intros p h Hp. destruct (is_dirty_ (pages_ s1 !!! g)); [|eauto].
        apply lookup_delete_Some in Hp as [_ Hp]. eauto.
      * by rewrite (fetch_page_refused s s1 pid0 Hp0 Hfv).
  - destruct (page_table_ s !! pid0) as [g|] eqn:Hp0;
      [|by rewrite (unpin_page_absent s pid0 d Hp0)].
    destruct (inv_table _ Hinv _ _ Hp0) as [Hlt _].
    destruct (decide (pin_count_ (pages_ s !!! g) = 0)) as [Hz|Hnz];
      [by rewrite (unpin_page_zero s pid0 d g Hp0 Hz)|].
    by rewrite (unpin_page_pinned s pid0 d g Hp0 Hlt Hnz).
  - destruct (flush_page_only_cleaned PAGE_SIZE INVALID_PAGE_ID s pid0)
      as (-> & _). done.
  - destruct (find_victim_page s) as [[g|] s1] eqn:Hfv; simpl in Hsub.
    + rewrite (new_page_acquired PAGE_SIZE s s1 pid0 g Hfv). simpl.
      intros pid f. apply Hins; [apply Halloc|done].
    + by rewrite (new_page_refused s s1 pid0 Hfv).
  - destruct (page_table_ s !! pid0) as [g|] eqn:Hp0;
      [|by rewrite delete_page_absent].
    destruct (decide (pin_count_ (pages_ s !!! g) = 0)) as [Hz|Hnz];
      [|by rewrite (delete_page_pinned PAGE_SIZE s pid0 g Hp0 Hnz)].
    rewrite (delete_page_released PAGE_SIZE s pid0 g Hp0 Hz). simpl.
    intros pid f Hp. apply lookup_delete_Some in Hp as [_ Hp]. eauto.
  - unfold flush_all_pages.
    destruct (flush_each_spec PAGE_SIZE INVALID_PAGE_ID
                (key_order (page_table_ s)) s) as ((-> & _) & _); [|done].
    intros p g _ Hp. by destruct (inv_table _ Hinv _ _ Hp).
Qed.

End MoreProofs.

(** ** The further properties at concrete inputs *)

Lemma half_full_inv : bpm_inv half_full.
Proof. apply run_inv. Qed.

Lemma X1_witness :
  (new_page 2 (mkPageId 1 7) (pool 2)).1.2 = Some 0%nat ∧
  (fetch_page 2 (mkPageId 1 7) (pool 2)).1 = Some 0%nat.
Proof.
  pose proof (X1_free_list_before_replacer 2 (pool 2) (mkPageId 1 7)
                0%nat [1%nat] eq_refl) as [(H1 & _) H2].
  split; [exact H1|]. apply H2.
  - vm_compute. reflexivity.
  - vm_compute. lia.
Defined.

Lemma X2_witness :
  page_table_ (delete_page 2 (mkPageId 1 0) dirty_resident).2 !! mkPageId 1 0
  = None ∧
  (new_page 2 (mkPageId 1 3)
     (delete_page 2 (mkPageId 1 0) dirty_resident).2).1.2 = Some 0%nat.
Proof.
  pose proof (X2_delete_page_releases_frame 2 (-1) dirty_resident
                (mkPageId 1 0) 0%nat) as H.
  destruct H as (H1 & _ & _ & _ & _ & H6).
  - vm_compute. reflexivity.
  - vm_compute. reflexivity.
  - split; [exact H1|]. apply H6. reflexivity.
Defined.

Lemma X3_witness :
  (find_victim_page dirty_resident).1 = Some 0%nat ∧
  page_table_ (find_victim_page dirty_resident).2 !! mkPageId 1 0 ≠ Some 0%nat.
Proof.
  pose proof (X3_eviction_unmaps_victim dirty_resident [] 0%nat
                dirty_resident_inv eq_refl eq_refl) as (H1 & _ & _ & H4 & _).
  split; [exact H1|apply H4].
Defined.

Lemma X4_witness :
  id_ (pages_ (fetch_page 2 (mkPageId 1 7) (pool 2)).2 !!! 0%nat)
  = mkPageId 1 7 ∧
  pin_count_ (pages_ (fetch_page 2 (mkPageId 1 7) (pool 2)).2 !!! 0%nat) = 1.
Proof.
  pose proof (X4_fetch_page_installs_page 2 (pool 2) (mkPageId 1 7) 0%nat
                (pool_inv 2)) as H.
  destruct H as (_ & _ & H3 & _ & H5 & _).
  - vm_compute. reflexivity.
  - vm_compute. reflexivity.
  - split; [exact H3|exact H5].
Defined.

Lemma X5_witness :
  pages_ (fetch_page 2 (mkPageId 1 7) one_pinned).2 = pages_ one_pinned.
Proof.
  pose proof (X5_fetch_page_fails_only_when_exhausted 2 one_pinned
                (mkPageId 1 7)) as [_ H].
  apply H. vm_compute. reflexivity.
Defined.

Lemma X6_witness :
  trace_ (fetch_page 2 (mkPageId 1 7) dirty_resident).2 =
  [EvVictim (Some 0%nat); EvWrite 1 0 [x01; x02]; EvRead 1 7; EvPin 0%nat].
Proof.
  pose proof (X6_evicted_page_written_back_first 2 dirty_resident
                (mkPageId 1 7) [] 0%nat dirty_resident_inv) as H.
  destruct H as (H1 & _).
  - vm_compute. reflexivity.
  - reflexivity.
  - reflexivity.
  - exact H1.
Defined.

Lemma X7_witness :
  pages_ (new_page 2 (mkPageId 1 9) (pool 1)).2 !!! 0%nat
  = mkPage [x00; x00] (mkPageId 1 0) false 1.
Proof.
  pose proof (X7_new_page_keeps_previous_bytes 2 (pool 1) (mkPageId 1 9)
                (mkPageId 1 0) 0%nat (pool_inv 1)) as H.
  destruct H as (_ & _ & _ & H4 & _).
  - vm_compute. reflexivity.
  - exact H4.
Defined.

Lemma X8_witness :
  pages_ (run_ops 2 (-1) table_keys (replicate 3 (OpUnpin (mkPageId 1 0) false))
            (run_ops 2 (-1) table_keys (replicate 3 (OpFetch (mkPageId 1 0))) one_pinned))
  = pages_ one_pinned.
Proof.
  pose proof (X8_fetch_then_unpin_restores 2 (-1) table_keys one_pinned (mkPageId 1 0)
                0%nat 3) as H.
  destruct H as (_ & _ & _ & _ & H5 & _).
  - vm_compute. reflexivity.
  - vm_compute. lia.
  - vm_compute. discriminate.
  - vm_compute. discriminate.
  - exact H5.
Defined.

Lemma X9_witness :
  (size (page_table_ (run [OpNew (mkPageId 1 0); OpFetch (mkPageId 1 7);
                           OpFetch (mkPageId 1 8)] 2))
   + length (free_list_ (run [OpNew (mkPageId 1 0); OpFetch (mkPageId 1 7);
                              OpFetch (mkPageId 1 8)] 2))
   ≤ pool_size_ (pool 2))%nat.
Proof.
  exact (proj2 (X9_resident_pages_bounded 2 (-1) table_keys (pool 2)
                  [OpNew (mkPageId 1 0); OpFetch (mkPageId 1 7);
                   OpFetch (mkPageId 1 8)] (pool_inv 2))).
Defined.

Lemma X10_witness :
  id_ (pages_ (run_op 2 (-1) table_keys (OpNew (mkPageId 1 0)) half_full) !!! 0%nat)
  = id_ (pages_ half_full !!! 0%nat).
Proof.
  pose proof (X10_pinned_frame_keeps_content 2 (-1) table_keys half_full
                (OpNew (mkPageId 1 0)) 0%nat half_full_inv) as H.
  destruct H as [_ H].
  - vm_compute. lia.
  - vm_compute. reflexivity.
  - exact H.
Defined.

Lemma X11_witness :
  EvWrite 1 0 [x01; x02]
    ∈ drop (length (trace_ dirty_resident))
           (trace_ (run_op 2 (-1) table_keys (OpFlush (mkPageId 1 0)) dirty_resident)).
Proof.
  apply (X11_dirty_cleared_only_by_write 2 (-1) table_keys dirty_resident
           (OpFlush (mkPageId 1 0)) 0%nat dirty_resident_inv).
  - vm_compute. lia.
  - vm_compute. reflexivity.
  - vm_compute. reflexivity.
Defined.

Lemma X12_witness :
  0%nat ∉ free_list_ (run [OpNew (mkPageId 1 0)] 2).
Proof.
  pose proof (X12_pinned_frame_not_evictable 2 (-1) table_keys (pool 2)
                [OpNew (mkPageId 1 0)] 0%nat (pool_inv 2)) as H.
  destruct H as [H _].
  - vm_compute. reflexivity.
  - exact H.
Defined.

Lemma X13_witness :
  pages_ (flush_all_pages 2 (-1) table_keys 4
            (flush_all_pages 2 (-1) table_keys 1 dirty_resident).2).2 !!! 0%nat
  = pages_ (flush_all_pages 2 (-1) table_keys 1 dirty_resident).2 !!! 0%nat.
Proof.
  pose proof (X13_flush_all_pages_twice 2 (-1) table_keys dirty_resident 1 4) as H.
  destruct H as (_ & H & _).
  - intros pid f Hp. by destruct (inv_table _ dirty_resident_inv _ _ Hp).
  - apply H.
Defined.

Lemma C4_witness :
  (unpin_page (mkPageId 1 0) false one_pinned).1 = true ∧
  pin_count_ (pages_ (unpin_page (mkPageId 1 0) false one_pinned).2 !!! 0%nat)
  = 0 ∧
  0 ≤ pin_count_ (pages_ (run_ops 2 (-1) table_keys
                            [OpFetch (mkPageId 1 0); OpUnpin (mkPageId 1 0) true;
                             OpUnpin (mkPageId 1 0) false;
                             OpUnpin (mkPageId 1 0) false]
                            one_pinned) !!! 0%nat).
Proof.
  pose proof (C4_unpin_page_guard 2 (-1) table_keys one_pinned (mkPageId 1 0)
                false one_pinned_inv) as H.
  destruct H as (_ & _ & H & Hrun).
  destruct (H 0%nat) as (H1 & H2 & _).
  - vm_compute. reflexivity.
  - vm_compute. discriminate.
  - split; [exact H1|]. split; [exact H2|].
    refine (proj1 (Hrun [OpFetch (mkPageId 1 0); OpUnpin (mkPageId 1 0) true;
                         OpUnpin (mkPageId 1 0) false;
                         OpUnpin (mkPageId 1 0) false] _ 0%nat _)).
    + intros g Hg. assert (g = 0%nat) as -> by (vm_compute in Hg; lia).
      vm_compute. discriminate.
    + vm_compute. lia.
Defined.
